(** * curlify: the translator [jsonToCurl] of n8n-tools

    A shallow embedding of [jsonToCurl] (curlify.js, lines 24-105) together
    with the part of the ECMAScript runtime it runs on, followed by the
    properties of the translator.

    Modelling choices.
    - A JavaScript string is a sequence of UTF-16 code units; a code unit is
      an [N].  [lit] turns an ASCII literal of the source into such a string.
    - A JavaScript value is one of the values [JSON.parse] can build, plus
      [undefined].  A Number is modelled by the integer it denotes (the only
      numeric field of the data model is a count of milliseconds); the model
      is exact on safe integers.
    - An object is the list of its own properties in creation order (their
      names are distinct in an object of the runtime).  The order in which
      [Object.entries] and [JSON.stringify] visit them is the one of
      OrdinaryOwnPropertyKeys: array indices first, ascending, then the
      other names in creation order.
    - A JavaScript exception is the [Throw] result of the error monad.
    - Two tables of the runtime are parameters of the development: the
      Unicode upper-case mapping outside ASCII, and the numeric reading of a
      string that stands where a number is expected. *)

From Stdlib Require Import List ZArith NArith Lia Bool String Ascii DecimalString.
From Stdlib Require Import Permutation Sorted.
Import ListNotations.

Set Implicit Arguments.
Open Scope string_scope.
Open Scope list_scope.
Set Warnings "-register-all".

(** ** Strings *)

Definition codeunit := N.
Definition jsstring := list codeunit.

Definition lit (s : string) : jsstring :=
  map N_of_ascii (list_ascii_of_string s).

Fixpoint jsstring_eqb (a b : jsstring) : bool :=
  match a, b with
  | [], [] => true
  | x :: a', y :: b' => N.eqb x y && jsstring_eqb a' b'
  | _, _ => false
  end.

Fixpoint startsWith (p s : jsstring) : bool :=
  match p, s with
  | [], _ => true
  | x :: p', y :: s' => N.eqb x y && startsWith p' s'
  | _ :: _, [] => false
  end.

(** [Array.prototype.join] on an array of strings. *)
Fixpoint join (sep : jsstring) (l : list jsstring) : jsstring :=
  match l with
  | [] => []
  | [x] => x
  | x :: rest => x ++ sep ++ join sep rest
  end.

(** ** Values *)

Inductive JsVal : Type :=
| JUndefined
| JNull
| JBool (b : bool)
| JNum (z : Z)
| JStr (s : jsstring)
| JArr (elems : list JsVal)
| JObj (props : list (jsstring * JsVal)).

(** ** Exceptions *)

Inductive Error := TypeError | URIError.

Inductive Result (A : Type) : Type :=
| Ok (a : A)
| Throw (e : Error).
Arguments Throw {A} e.

Definition bind {A B} (m : Result A) (k : A -> Result B) : Result B :=
  match m with
  | Ok a => k a
  | Throw e => Throw e
  end.

Notation "x <- m ;; k" := (bind m (fun x => k))
  (at level 61, m at next level, right associativity).
Notation "' p <- m ;; k" := (bind m (fun x => let p := x in k))
  (at level 61, p pattern, m at next level, right associativity).

(** A [for ... of] loop whose body may throw and otherwise updates the
    accumulator. *)
Fixpoint forOf {A S} (l : list A) (s : S) (body : S -> A -> Result S) : Result S :=
  match l with
  | [] => Ok s
  | x :: rest => s' <- body s x ;; forOf rest s' body
  end.

(** ** Operators *)

(** ToBoolean. *)
Definition truthy (v : JsVal) : bool :=
  match v with
  | JUndefined | JNull => false
  | JBool b => b
  | JNum z => negb (Z.eqb z 0)
  | JStr s => match s with [] => false | _ => true end
  | JArr _ | JObj _ => true
  end.

(** [a || b]. *)
Definition or_ (a b : JsVal) : JsVal := if truthy a then a else b.

(** [a ?? b]. *)
Definition nullish (v : JsVal) : bool :=
  match v with JUndefined | JNull => true | _ => false end.

Definition coalesce (a b : JsVal) : JsVal := if nullish a then b else a.

(** [v === false]. *)
Definition strictly_false (v : JsVal) : bool :=
  match v with JBool false => true | _ => false end.

(** [typeof v === 'string']. *)
Definition is_string (v : JsVal) : bool :=
  match v with JStr _ => true | _ => false end.

(** ** Properties *)

Fixpoint lookup {A} (name : jsstring) (props : list (jsstring * A)) : option A :=
  match props with
  | [] => None
  | (k, v) :: rest => if jsstring_eqb k name then Some v else lookup name rest
  end.

(** [v.name], for the names [jsonToCurl] reads: none of them is an array
    index, [length] or a member of a built-in prototype, so only an object
    can have one; reading a property of [undefined] or [null] throws. *)
Definition prop (v : JsVal) (name : string) : JsVal :=
  match v with
  | JObj props =>
      match lookup (lit name) props with
      | Some x => x
      | None => JUndefined
      end
  | _ => JUndefined
  end.

Definition field (v : JsVal) (name : string) : Result JsVal :=
  if nullish v then Throw TypeError else Ok (prop v name).

(** *** Own property order *)

Definition is_digit (c : codeunit) : bool := (48 <=? c)%N && (c <=? 57)%N.

Fixpoint digits_value (acc : N) (s : jsstring) : N :=
  match s with
  | [] => acc
  | c :: rest => digits_value (acc * 10 + (c - 48))%N rest
  end.

(** An array index is the canonical decimal form of an integer in
    [0, 2^32 - 2]. *)
Definition array_index (s : jsstring) : option N :=
  match s with
  | [] => None
  | c :: rest =>
      if forallb is_digit s
         && (negb (N.eqb c 48) || match rest with [] => true | _ => false end)
      then let n := digits_value 0 s in
           if (n <=? 4294967294)%N then Some n else None
      else None
  end.

Definition is_array_index (s : jsstring) : bool :=
  match array_index s with Some _ => true | None => false end.

Fixpoint insert_by_index {A} (n : N) (e : jsstring * A)
    (l : list (N * (jsstring * A))) : list (N * (jsstring * A)) :=
  match l with
  | [] => [(n, e)]
  | (m, e') :: rest =>
      if (n <? m)%N then (n, e) :: l else (m, e') :: insert_by_index n e rest
  end.

Fixpoint indexed {A} (props : list (jsstring * A)) : list (N * (jsstring * A)) :=
  match props with
  | [] => []
  | (k, v) :: rest =>
      match array_index k with
      | Some n => insert_by_index n (k, v) (indexed rest)
      | None => indexed rest
      end
  end.

Definition named {A} (props : list (jsstring * A)) : list (jsstring * A) :=
  filter (fun e => negb (is_array_index (fst e))) props.

(** OrdinaryOwnPropertyKeys, on the properties with their values. *)
Definition ownEntries {A} (props : list (jsstring * A)) : list (jsstring * A) :=
  map snd (indexed props) ++ named props.

(** ** Built-in functions *)

(** Number::toString on an integer. *)
Definition Number_toString (z : Z) : jsstring :=
  lit (NilZero.string_of_int (Z.to_int z)).

(** [Math.ceil(z / d)] for a positive divisor. *)
Definition Math_ceil_div (z d : Z) : Z := (- ((- z) / d))%Z.

Definition hex_digit (upper : bool) (n : N) : codeunit :=
  if (n <? 10)%N then (48 + n)%N
  else if upper then (55 + n)%N else (87 + n)%N.

(** [String.prototype.replace(/'/g, "'\\''")]. *)
Definition apostrophe : codeunit := 39%N.

Fixpoint replace_quotes (s : jsstring) : jsstring :=
  match s with
  | [] => []
  | c :: rest =>
      if N.eqb c apostrophe then lit "'\''" ++ replace_quotes rest
      else c :: replace_quotes rest
  end.

(** [value.replace(/'/g, "'\\''")] as a method call: only a string has the
    method. *)
Definition replace_call (v : JsVal) : Result jsstring :=
  match v with
  | JStr s => Ok (replace_quotes s)
  | _ => Throw TypeError
  end.

(** *** UTF-16 *)

Definition is_high_surrogate (c : codeunit) : bool :=
  (55296 <=? c)%N && (c <=? 56319)%N.
Definition is_low_surrogate (c : codeunit) : bool :=
  (56320 <=? c)%N && (c <=? 57343)%N.

Definition code_point (hi lo : codeunit) : N :=
  ((hi - 55296) * 1024 + (lo - 56320) + 65536)%N.

Definition utf16 (cp : N) : jsstring :=
  if (cp <? 65536)%N then [cp]
  else [(55296 + (cp - 65536) / 1024)%N; (56320 + (cp - 65536) mod 1024)%N].

Definition utf8 (cp : N) : list N :=
  if (cp <? 128)%N then [cp]
  else if (cp <? 2048)%N then [(192 + cp / 64)%N; (128 + cp mod 64)%N]
  else if (cp <? 65536)%N then
    [(224 + cp / 4096)%N; (128 + (cp / 64) mod 64)%N; (128 + cp mod 64)%N]
  else
    [(240 + cp / 262144)%N; (128 + (cp / 4096) mod 64)%N;
     (128 + (cp / 64) mod 64)%N; (128 + cp mod 64)%N].

(** *** encodeURIComponent *)

Definition is_alnum (c : codeunit) : bool :=
  ((65 <=? c) && (c <=? 90) || (97 <=? c) && (c <=? 122)
   || (48 <=? c) && (c <=? 57))%N%bool.

(** The characters [encodeURIComponent] leaves alone: letters, digits and
    [- _ . ! ~ * ' ( )]. *)
Definition uri_unreserved (c : codeunit) : bool :=
  is_alnum c || existsb (N.eqb c) (lit "-_.!~*'()").

Definition percent_byte (b : N) : jsstring :=
  [37%N; hex_digit true (b / 16); hex_digit true (b mod 16)].

Definition percent_encode (cp : N) : jsstring :=
  flat_map percent_byte (utf8 cp).

(** Encode of the URI functions, on a string: an unpaired surrogate throws
    a URIError. *)
Fixpoint Encode (s : jsstring) : Result jsstring :=
  match s with
  | [] => Ok []
  | c :: rest =>
      if uri_unreserved c then r <- Encode rest ;; Ok (c :: r)
      else if is_low_surrogate c then Throw URIError
      else if is_high_surrogate c then
        match rest with
        | d :: rest' =>
            if is_low_surrogate d
            then r <- Encode rest' ;; Ok (percent_encode (code_point c d) ++ r)
            else Throw URIError
        | [] => Throw URIError
        end
      else r <- Encode rest ;; Ok (percent_encode c ++ r)
  end.

(** *** JSON.stringify *)

Definition json_escape (c : codeunit) : option jsstring :=
  if N.eqb c 8 then Some (lit "\b")
  else if N.eqb c 9 then Some (lit "\t")
  else if N.eqb c 10 then Some (lit "\n")
  else if N.eqb c 12 then Some (lit "\f")
  else if N.eqb c 13 then Some (lit "\r")
  else if N.eqb c 34 then Some (92 :: [34])%N
  else if N.eqb c 92 then Some (lit "\\")
  else None.

Definition unicode_escape (c : codeunit) : jsstring :=
  lit "\u" ++ [hex_digit false (c / 4096); hex_digit false ((c / 256) mod 16);
               hex_digit false ((c / 16) mod 16); hex_digit false (c mod 16)].

Fixpoint quote_chars (s : jsstring) : jsstring :=
  match s with
  | [] => []
  | c :: rest =>
      match json_escape c with
      | Some e => e ++ quote_chars rest
      | None =>
          if (c <? 32)%N || is_low_surrogate c then unicode_escape c ++ quote_chars rest
          else if is_high_surrogate c then
            match rest with
            | d :: rest' =>
                if is_low_surrogate d then c :: d :: quote_chars rest'
                else unicode_escape c ++ quote_chars rest
            | [] => unicode_escape c
            end
          else c :: quote_chars rest
      end
  end.

(** QuoteJSONString. *)
Definition QuoteJSONString (s : jsstring) : jsstring :=
  34%N :: quote_chars s ++ [34%N].

(** [JSON.stringify(v)] without indentation; [None] is the result
    [undefined].  No value built by [JSON.parse] has a callable [toJSON]. *)
Fixpoint JSON_stringify (v : JsVal) : option jsstring :=
  match v with
  | JUndefined => None
  | JNull => Some (lit "null")
  | JBool b => Some (lit (if b then "true" else "false"))
  | JNum z => Some (Number_toString z)
  | JStr s => Some (QuoteJSONString s)
  | JArr elems =>
      Some (lit "[" ++
            join (lit ",")
              (map (fun e => match JSON_stringify e with
                             | Some t => t
                             | None => lit "null"
                             end) elems) ++
            lit "]")
  | JObj props =>
      Some (lit "{" ++
            join (lit ",")
              (flat_map (fun e => match snd e with
                                  | Some t => [QuoteJSONString (fst e) ++ lit ":" ++ t]
                                  | None => []
                                  end)
                 (ownEntries (map (fun e => (fst e, JSON_stringify (snd e))) props))) ++
            lit "}")
  end.

(** *** ToString *)

Definition has_own {A} (name : string) (props : list (jsstring * A)) : bool :=
  match lookup (lit name) props with Some _ => true | None => false end.

(** [String(v)], as a template literal and [encodeURIComponent] apply it.
    An object answers through [Object.prototype.toString] unless an own
    property (never callable here) hides it, in which case the conversion
    throws; an array answers with [join()]. *)
Fixpoint ToString (v : JsVal) : Result jsstring :=
  match v with
  | JUndefined => Ok (lit "undefined")
  | JNull => Ok (lit "null")
  | JBool b => Ok (lit (if b then "true" else "false"))
  | JNum z => Ok (Number_toString z)
  | JStr s => Ok s
  | JArr elems =>
      (fix join_elems (l : list JsVal) : Result jsstring :=
         match l with
         | [] => Ok []
         | e :: rest =>
             t <- (if nullish e then Ok [] else ToString e) ;;
             match rest with
             | [] => Ok t
             | _ :: _ => r <- join_elems rest ;; Ok (t ++ lit "," ++ r)
             end
         end) elems
  | JObj props =>
      if has_own "toString" props then Throw TypeError
      else Ok (lit "[object Object]")
  end.

Definition encodeURIComponent (v : JsVal) : Result jsstring :=
  s <- ToString v ;; Encode s.

(** *** Object.entries *)

Fixpoint enumerate {A} (i : nat) (l : list A) : list (jsstring * A) :=
  match l with
  | [] => []
  | x :: rest => (Number_toString (Z.of_nat i), x) :: enumerate (S i) rest
  end.

Definition Object_entries (v : JsVal) : Result (list (jsstring * JsVal)) :=
  match v with
  | JUndefined | JNull => Throw TypeError
  | JBool _ | JNum _ => Ok []
  | JStr s => Ok (enumerate 0 (map (fun c => JStr [c]) s))
  | JArr elems => Ok (enumerate 0 elems)
  | JObj props => Ok (ownEntries props)
  end.

(** The upper-case mapping inside ASCII. *)
Definition ascii_upper (c : codeunit) : codeunit :=
  if (97 <=? c)%N && (c <=? 122)%N then (c - 32)%N else c.

(** ** The translator *)

Section Curlify.

(** The full upper-case mapping of a code point outside ASCII (UnicodeData
    and SpecialCasing of the Unicode Character Database), as code points. *)
Variable unicodeUpper : N -> list N.

(** The text of [Math.ceil(Number(s) / 1000)] for a string [s]: the grammar
    of numeric strings and the arithmetic on the fractions and NaN it can
    denote. *)
Variable ceilSecondsOfString : jsstring -> jsstring.

Definition upper_code_point (cp : N) : jsstring :=
  if (cp <? 128)%N then [ascii_upper cp]
  else flat_map utf16 (unicodeUpper cp).

(** [String.prototype.toUpperCase], code point by code point. *)
Fixpoint toUpperCase (s : jsstring) : jsstring :=
  match s with
  | [] => []
  | c :: rest =>
      if is_high_surrogate c then
        match rest with
        | d :: rest' =>
            if is_low_surrogate d
            then upper_code_point (code_point c d) ++ toUpperCase rest'
            else upper_code_point c ++ toUpperCase rest
        | [] => upper_code_point c
        end
      else upper_code_point c ++ toUpperCase rest
  end.

(** [v.toUpperCase()] as a method call: only a string has the method. *)
Definition toUpperCase_call (v : JsVal) : Result jsstring :=
  match v with
  | JStr s => Ok (toUpperCase s)
  | _ => Throw TypeError
  end.

(** The text of [Math.ceil(v / 1000)] in a template literal. *)
Definition ceilSeconds (v : JsVal) : Result jsstring :=
  match v with
  | JUndefined => Ok (lit "NaN")
  | JNull => Ok (lit "0")
  | JBool b => Ok (Number_toString (Math_ceil_div (if b then 1 else 0) 1000))
  | JNum z => Ok (Number_toString (Math_ceil_div z 1000))
  | JStr s => Ok (ceilSecondsOfString s)
  | JArr _ | JObj _ => s <- ToString v ;; Ok (ceilSecondsOfString s)
  end.

(** [parts.push(tok)]. *)
Definition push (parts : list jsstring) (tok : jsstring) : list jsstring :=
  parts ++ [tok].

(** [typeof body === 'string' ? body : JSON.stringify(body)], followed by
    [.replace(/'/g, "'\\''")] (lines 56-59 and 65-68). *)
Definition escapedBody (body : JsVal) : Result jsstring :=
  match (if is_string body then
           match body with JStr s => Some s | _ => None end
         else JSON_stringify body) with
  | Some bodyStr => Ok (replace_quotes bodyStr)
  | None => Throw TypeError
  end.

(** Lines 28-31.  [config.method] is the first property read: on a config
    that is [undefined] or [null] it throws and nothing else runs. *)
Definition block_method (config : JsVal) (parts : list jsstring)
  : Result (list jsstring) :=
  m <- field config "method" ;;
  method <- toUpperCase_call (or_ m (JStr (lit "GET"))) ;;
  if negb (jsstring_eqb method (lit "GET"))
  then Ok (push parts (lit "-X " ++ method))
  else Ok parts.

(** Lines 34-39. *)
Definition block_headers (config : JsVal) (parts : list jsstring)
  : Result (list jsstring) :=
  if truthy (prop config "headers") then
    entries <- Object_entries (prop config "headers") ;;
    forOf entries parts (fun parts e =>
      let (key, value) := e in
      escapedValue <- replace_call value ;;
      Ok (push parts (lit "-H '" ++ key ++ lit ": " ++ escapedValue ++ lit "'")))
  else Ok parts.

(** Lines 42-52. *)
Definition block_form (config : JsVal) (parts : list jsstring)
  : Result (list jsstring) :=
  if truthy (prop config "form") then
    entries <- Object_entries (prop config "form") ;;
    formParts <- forOf entries [] (fun formParts e =>
      let (key, value) := e in
      encodedKey <- encodeURIComponent (JStr key) ;;
      encodedValue <- encodeURIComponent (coalesce value (JStr [])) ;;
      Ok (push formParts (encodedKey ++ lit "=" ++ encodedValue))) ;;
    if Nat.ltb 0 (List.length formParts)
    then Ok (push parts (lit "-d '" ++ join (lit "&") formParts ++ lit "'"))
    else Ok parts
  else Ok parts.

(** Lines 55-61. *)
Definition block_json_body (config : JsVal) (parts : list jsstring)
  : Result (list jsstring) :=
  if truthy (prop config "body") && truthy (prop config "json") then
    escaped <- escapedBody (prop config "body") ;;
    Ok (push parts (lit "-d '" ++ escaped ++ lit "'"))
  else Ok parts.

(** Lines 64-70. *)
Definition block_raw_body (config : JsVal) (parts : list jsstring)
  : Result (list jsstring) :=
  if truthy (prop config "body") && negb (truthy (prop config "json"))
     && negb (truthy (prop config "form")) then
    escaped <- escapedBody (prop config "body") ;;
    Ok (push parts (lit "-d '" ++ escaped ++ lit "'"))
  else Ok parts.

(** Lines 73-75. *)
Definition block_gzip (config : JsVal) (parts : list jsstring) : list jsstring :=
  if truthy (prop config "gzip") then push parts (lit "--compressed") else parts.

(** Lines 78-80. *)
Definition block_insecure (config : JsVal) (parts : list jsstring) : list jsstring :=
  if strictly_false (prop config "rejectUnauthorized")
  then push parts (lit "-k") else parts.

(** Lines 83-85. *)
Definition block_redirects (config : JsVal) (parts : list jsstring) : list jsstring :=
  if truthy (prop config "followRedirect") || truthy (prop config "followAllRedirects")
  then push parts (lit "-L") else parts.

(** Lines 88-91. *)
Definition block_timeout (config : JsVal) (parts : list jsstring)
  : Result (list jsstring) :=
  if truthy (prop config "timeout") then
    timeoutSec <- ceilSeconds (prop config "timeout") ;;
    Ok (push parts (lit "--max-time " ++ timeoutSec))
  else Ok parts.

(** Lines 94-96. *)
Definition block_full_response (config : JsVal) (parts : list jsstring)
  : list jsstring :=
  if truthy (prop config "resolveWithFullResponse")
  then push parts (lit "-i") else parts.

(** Lines 99-102. *)
Definition block_url (config : JsVal) (parts : list jsstring)
  : Result (list jsstring) :=
  let url := or_ (prop config "uri") (prop config "url") in
  if truthy url then
    text <- ToString url ;;
    Ok (push parts (lit "'" ++ text ++ lit "'"))
  else Ok parts.

(** *** What each block pushes

    The tokens a block appends do not depend on the array it appends them
    to; the functions below give them block by block
    ([jsonToCurl_parts_assemble] is the proof). *)

Fixpoint mapM {A B} (f : A -> Result B) (l : list A) : Result (list B) :=
  match l with
  | [] => Ok []
  | x :: rest => y <- f x ;; ys <- mapM f rest ;; Ok (y :: ys)
  end.

Definition header_flag (e : jsstring * JsVal) : Result jsstring :=
  escapedValue <- replace_call (snd e) ;;
  Ok (lit "-H '" ++ fst e ++ lit ": " ++ escapedValue ++ lit "'").

Definition form_pair (e : jsstring * JsVal) : Result jsstring :=
  encodedKey <- encodeURIComponent (JStr (fst e)) ;;
  encodedValue <- encodeURIComponent (coalesce (snd e) (JStr [])) ;;
  Ok (encodedKey ++ lit "=" ++ encodedValue).

Definition method_of (config : JsVal) : Result jsstring :=
  m <- field config "method" ;;
  toUpperCase_call (or_ m (JStr (lit "GET"))).

Definition tokens_method (config : JsVal) : Result (list jsstring) :=
  method <- method_of config ;;
  Ok (if negb (jsstring_eqb method (lit "GET")) then [lit "-X " ++ method] else []).

Definition tokens_headers (config : JsVal) : Result (list jsstring) :=
  if truthy (prop config "headers") then
    entries <- Object_entries (prop config "headers") ;;
    mapM header_flag entries
  else Ok [].

Definition form_flag (formParts : list jsstring) : list jsstring :=
  match formParts with
  | [] => []
  | _ :: _ => [lit "-d '" ++ join (lit "&") formParts ++ lit "'"]
  end.

Definition tokens_form (config : JsVal) : Result (list jsstring) :=
  if truthy (prop config "form") then
    entries <- Object_entries (prop config "form") ;;
    formParts <- mapM form_pair entries ;;
    Ok (form_flag formParts)
  else Ok [].

Definition body_flag (body : JsVal) : Result (list jsstring) :=
  escaped <- escapedBody body ;;
  Ok [lit "-d '" ++ escaped ++ lit "'"].

Definition tokens_json_body (config : JsVal) : Result (list jsstring) :=
  if truthy (prop config "body") && truthy (prop config "json")
  then body_flag (prop config "body") else Ok [].

Definition tokens_raw_body (config : JsVal) : Result (list jsstring) :=
  if truthy (prop config "body") && negb (truthy (prop config "json"))
     && negb (truthy (prop config "form"))
  then body_flag (prop config "body") else Ok [].

Definition tokens_timeout (config : JsVal) : Result (list jsstring) :=
  if truthy (prop config "timeout") then
    timeoutSec <- ceilSeconds (prop config "timeout") ;;
    Ok [lit "--max-time " ++ timeoutSec]
  else Ok [].

Definition tokens_url (config : JsVal) : Result (list jsstring) :=
  let url := or_ (prop config "uri") (prop config "url") in
  if truthy url then
    text <- ToString url ;;
    Ok [lit "'" ++ text ++ lit "'"]
  else Ok [].

Definition assemble (config : JsVal) : Result (list jsstring) :=
  x <- tokens_method config ;;
  h <- tokens_headers config ;;
  f <- tokens_form config ;;
  j <- tokens_json_body config ;;
  r <- tokens_raw_body config ;;
  t <- tokens_timeout config ;;
  u <- tokens_url config ;;
  Ok (lit "curl" :: x ++ h ++ f ++ j ++ r
        ++ block_gzip config [] ++ block_insecure config []
        ++ block_redirects config [] ++ t
        ++ block_full_response config [] ++ u).

(** The array [parts] at line 104, before it is joined. *)
Definition jsonToCurl_parts (config : JsVal) : Result (list jsstring) :=
  let parts := [lit "curl"] in
  parts <- block_method config parts ;;
  parts <- block_headers config parts ;;
  parts <- block_form config parts ;;
  parts <- block_json_body config parts ;;
  parts <- block_raw_body config parts ;;
  let parts := block_gzip config parts in
  let parts := block_insecure config parts in
  let parts := block_redirects config parts in
  parts <- block_timeout config parts ;;
  let parts := block_full_response config parts in
  block_url config parts.

(** The separator of line 104: a space, a backslash, a newline and two
    spaces. *)
Definition separator : jsstring := [32; 92; 10; 32; 32]%N.

Definition jsonToCurl (config : JsVal) : Result jsstring :=
  parts <- jsonToCurl_parts config ;;
  Ok (join separator parts).

(** ** Vocabulary of the properties *)

(** The tokens of [parts] that start with [f]: with [f] a flag and the
    space before its argument, the occurrences of that flag. *)
Definition is_flag (f : string) (tok : jsstring) : bool := startsWith (lit f) tok.

Definition flags (f : string) (parts : list jsstring) : list jsstring :=
  filter (is_flag f) parts.

(** The URL token is the only one that starts with a quote. *)
Definition url_tokens (parts : list jsstring) : list jsstring :=
  filter (is_flag "'") parts.

(** Every token of [g] starts with [p]. *)
Definition starts (p : string) (g : list jsstring) : Prop :=
  Forall (fun t => exists rest, t = lit p ++ rest) g.

(** A string in which every surrogate is half of a pair. *)
Fixpoint well_formed_utf16 (s : jsstring) : bool :=
  match s with
  | [] => true
  | c :: rest =>
      if is_low_surrogate c then false
      else if is_high_surrogate c then
        match rest with
        | d :: rest' => is_low_surrogate d && well_formed_utf16 rest'
        | [] => false
        end
      else well_formed_utf16 rest
  end.

(** Equality of ASCII strings up to the case of the letters. *)
Definition same_letters (a b : jsstring) : Prop :=
  map ascii_upper a = map ascii_upper b.

(** *** The data model (section 3 of the specification)

    Every field is optional; an absent field reads as [undefined], and
    [null] stands for no value. *)

Definition optional (p : JsVal -> bool) (v : JsVal) : bool :=
  match v with
  | JUndefined | JNull => true
  | _ => p v
  end.

Definition is_boolean (v : JsVal) : bool :=
  match v with JBool _ => true | _ => false end.

Definition is_integer (v : JsVal) : bool :=
  match v with JNum _ => true | _ => false end.

(** A mapping whose values satisfy [p]. *)
Definition is_mapping (p : JsVal -> bool) (v : JsVal) : bool :=
  match v with
  | JObj props => forallb (fun e => p (snd e)) props
  | _ => false
  end.

Definition anything (v : JsVal) : bool := true.

Definition well_formed (config : JsVal) : bool :=
  match config with
  | JObj _ =>
      optional is_string (prop config "method")
      && optional is_string (prop config "url")
      && optional is_string (prop config "uri")
      && optional (is_mapping is_string) (prop config "headers")
      && optional (is_mapping anything) (prop config "form")
      && optional anything (prop config "body")
      && optional is_boolean (prop config "json")
      && optional is_boolean (prop config "gzip")
      && optional is_boolean (prop config "rejectUnauthorized")
      && optional is_boolean (prop config "followRedirect")
      && optional is_boolean (prop config "followAllRedirects")
      && optional is_integer (prop config "timeout")
      && optional is_boolean (prop config "resolveWithFullResponse")
  | _ => false
  end.

(** A value whose conversion to a string exists and has no unpaired
    surrogate. *)
Definition encodable (v : JsVal) : bool :=
  match ToString v with
  | Ok s => well_formed_utf16 s
  | Throw _ => false
  end.

(** The names and the values of the form can be percent-encoded. *)
Definition form_encodable (config : JsVal) : bool :=
  match prop config "form" with
  | JObj props =>
      forallb (fun e => well_formed_utf16 (fst e)
                        && encodable (coalesce (snd e) (JStr []))) props
  | _ => true
  end.

(** *** Sample instances of the two runtime tables, for closed examples:
    no upper-case mapping outside ASCII, and every string read as NaN. *)
Definition asciiOnlyUpper (cp : N) : list N := [cp].
Definition notANumber (s : jsstring) : jsstring := lit "NaN".

(** *** Configs used in the examples *)

Definition str (s : string) : JsVal := JStr (lit s).

Definition obj (l : list (string * JsVal)) : JsVal :=
  JObj (map (fun e => (lit (fst e), snd e)) l).

Definition config_form_and_json : JsVal :=
  obj [("form", obj [("a", str "1")]); ("body", str "it's"); ("json", JBool true)].

Definition config_form_and_empty_body : JsVal :=
  obj [("form", obj [("a", str "1")]); ("body", JStr []); ("json", JBool true)].

Definition config_raw_body : JsVal :=
  obj [("body", str "it's raw"); ("url", str "https://api.example.com")].

Definition config_empty_form_and_body : JsVal :=
  obj [("form", obj []); ("body", str "x")].

Definition config_headers : JsVal :=
  obj [("headers", obj [("Accept", str "*/*"); ("X-Note", str "it's")])].

Definition config_numeric_header : JsVal :=
  obj [("headers", obj [("b", str "x"); ("1", str "y")])].

Definition config_form : JsVal :=
  obj [("form", obj [("a", str "1"); ("b", str "two words"); ("c", JNull)])].

Definition config_numeric_form : JsVal :=
  obj [("form", obj [("b", str "x"); ("1", str "y")])].

Definition config_uri_and_url : JsVal :=
  obj [("uri", str "https://x.test"); ("url", str "https://y.test")].

Definition config_empty_uri : JsVal :=
  obj [("uri", JStr []); ("url", str "https://y.test")].

Definition config_post : JsVal :=
  obj [("method", str "pOsT"); ("url", str "https://api.example.com")].


Definition config_insecure : JsVal :=
  obj [("rejectUnauthorized", JBool false); ("url", str "https://api.example.com")].

(** A form value that is the single code unit U+D800, as [JSON.parse]
    builds it from the escape backslash-u-d800. *)
Definition config_lone_surrogate : JsVal :=
  obj [("form", obj [("a", JStr [55296%N])])].

(** The round trip of the specification, with a field the data model does
    not name. *)
Definition config_round_trip : JsVal :=
  obj [("method", str "POST"); ("url", str "https://api.example.com/users");
       ("headers", obj [("Content-Type", str "application/json")]);
       ("body", obj [("name", str "John"); ("age", JNum 30)]);
       ("json", JBool true); ("comment", JArr [JNull])].

(** *** The place of a token in the command

    The blocks of the source push in a fixed order; [rank] numbers the
    kinds of token in that order, by the text a token starts with. *)
Definition rank (tok : jsstring) : nat :=
  if jsstring_eqb tok (lit "curl") then 0
  else if is_flag "-X " tok then 1
  else if is_flag "-H '" tok then 2
  else if is_flag "-d '" tok then 3
  else if jsstring_eqb tok (lit "--compressed") then 4
  else if jsstring_eqb tok (lit "-k") then 5
  else if jsstring_eqb tok (lit "-L") then 6
  else if is_flag "--max-time " tok then 7
  else if jsstring_eqb tok (lit "-i") then 8
  else if is_flag "'" tok then 9
  else 10.

(** *** When the translator returns *)

Definition is_ok {A} (r : Result A) : bool :=
  match r with Ok _ => true | Throw _ => false end.

Definition entries_all (p : jsstring * JsVal -> bool) (v : JsVal) : bool :=
  match Object_entries v with
  | Ok entries => forallb p entries
  | Throw _ => false
  end.

(** The method is a string or falsy; the values of the headers are
    strings; the names and values of the form can be percent-encoded; a
    truthy timeout and a truthy URL can be converted to a string. *)
Definition can_return (config : JsVal) : bool :=
  negb (nullish config)
  && is_string (or_ (prop config "method") (JStr (lit "GET")))
  && (negb (truthy (prop config "headers"))
      || entries_all (fun e => is_string (snd e)) (prop config "headers"))
  && (negb (truthy (prop config "form"))
      || entries_all (fun e => encodable (JStr (fst e))
                               && encodable (coalesce (snd e) (JStr [])))
           (prop config "form"))
  && (negb (truthy (prop config "timeout"))
      || is_ok (ToString (prop config "timeout")))
  && (negb (truthy (or_ (prop config "uri") (prop config "url")))
      || is_ok (ToString (or_ (prop config "uri") (prop config "url")))).

(** The thirteen fields [jsonToCurl] reads. *)
Definition fields_read : list string :=
  ["method"; "headers"; "form"; "body"; "json"; "gzip"; "rejectUnauthorized";
   "followRedirect"; "followAllRedirects"; "timeout"; "resolveWithFullResponse";
   "uri"; "url"].

(** ** The command line (curlify.js, lines 110-218)

    What a run writes and how it ends.  [console.log] and [console.error]
    are the outputs; the help text of [showHelp] is one output, [LogHelp];
    [process.exit] ends the run with its code, an exception nobody catches
    ends it as [Uncaught], and [Return] is the end of [main]. *)

Inductive Output : Type :=
| Log (text : jsstring)
| LogHelp
| LogError (text : jsstring).

Inductive Ending : Type :=
| Exit (code : Z)
| Return
| Uncaught (e : Error).

(** The file system, [JSON.parse] and [package.json], which the run reads:
    a read or a parse gives its result or the message of its exception. *)
Record World : Type := {
  existsSync : jsstring -> bool;
  readFileSync : jsstring -> jsstring + jsstring;
  JSON_parse : jsstring -> JsVal + jsstring;
  package_version : jsstring
}.

(** Lines 110-138. *)
Definition showHelp : list Output := [LogHelp].

(** Lines 143-147. *)
Definition showVersion (w : World) : list Output :=
  [Log (lit "curlify v" ++ package_version w);
   Log (lit "Part of n8n-tools collection")].

(** Lines 182-183: no handler surrounds the call of [jsonToCurl]. *)
Definition print_command (jsonData : JsVal) : list Output * Ending :=
  match jsonToCurl jsonData with
  | Ok curlCommand => ([Log curlCommand], Return)
  | Throw e => ([], Uncaught e)
  end.

Definition quotes_hint : jsstring :=
  lit "Make sure to wrap the JSON in quotes: curlify '{" ++ [34%N] ++ lit "json"
    ++ [34%N] ++ lit ": " ++ [34%N] ++ lit "here" ++ [34%N] ++ lit "}'".

(** Lines 153-184. *)
Definition convert (w : World) (input : jsstring) : list Output * Ending :=
  match input with
  | [] => (LogError (lit "Error: No input provided") :: showHelp, Exit 1)
  | _ :: _ =>
      if existsSync w input then
        match readFileSync w input with
        | inl fileContent =>
            match JSON_parse w fileContent with
            | inl jsonData => print_command jsonData
            | inr message =>
                ([LogError (lit "Error reading file: " ++ message)], Exit 1)
            end
        | inr message =>
            ([LogError (lit "Error reading file: " ++ message)], Exit 1)
        end
      else
        match JSON_parse w input with
        | inl jsonData => print_command jsonData
        | inr message =>
            ([LogError (lit "Error parsing JSON: " ++ message);
              LogError quotes_hint], Exit 1)
        end
  end.

(** Lines 189-218, on [process.argv.slice(2)]. *)
Definition main (w : World) (args : list jsstring) : list Output * Ending :=
  match args with
  | [] => (LogError (lit "Error: No input provided") :: showHelp, Exit 1)
  | firstArg :: _ =>
      if jsstring_eqb firstArg (lit "--help") || jsstring_eqb firstArg (lit "-h")
      then (showHelp, Exit 0)
      else if jsstring_eqb firstArg (lit "--version")
              || jsstring_eqb firstArg (lit "-v")
      then (showVersion w, Exit 0)
      else convert w firstArg
  end.

Definition config_switches : JsVal :=
  obj [("gzip", JBool true); ("followAllRedirects", JBool true);
       ("resolveWithFullResponse", JBool true);
       ("url", str "https://api.example.com")].

Definition config_everything : JsVal :=
  obj [("url", str "https://api.example.com"); ("resolveWithFullResponse", JBool true);
       ("timeout", JNum 2500); ("followRedirect", JBool true);
       ("rejectUnauthorized", JBool false); ("gzip", JBool true);
       ("json", JBool true); ("body", str "x"); ("form", obj [("a", str "1")]);
       ("headers", obj [("Accept", str "*/*")]); ("method", str "put")].

Definition config_form_and_raw_body : JsVal :=
  obj [("form", obj [("a", str "1")]); ("body", str "dropped")].

Definition config_numeric_header_value : JsVal :=
  obj [("headers", obj [("content-length", JNum 42)]);
       ("url", str "https://api.example.com")].

Definition config_form_with_separators : JsVal :=
  obj [("form", obj [("a&b", str "c=d"); ("e", str "f&g")])].

Definition config_get : JsVal :=
  obj [("method", str "gEt"); ("url", str "https://api.example.com")].

(** *** Sample worlds for closed examples: one file, [request.json], that
    holds the empty object; they differ in how they parse the name of the
    file itself. *)
Definition sampleWorld : World := {|
  existsSync := fun path => jsstring_eqb path (lit "request.json");
  readFileSync := fun path => inl (lit "{}");
  JSON_parse := fun text =>
    if jsstring_eqb text (lit "{}") then inl (JObj [])
    else inr (lit "Unexpected token");
  package_version := lit "1.0.0"
|}.

Definition otherWorld : World := {|
  existsSync := fun path => jsstring_eqb path (lit "request.json");
  readFileSync := fun path => inl (lit "{}");
  JSON_parse := fun text =>
    if jsstring_eqb text (lit "{}") then inl (JObj []) else inl JNull;
  package_version := lit "1.0.0"
|}.

(** ** The blocks and their tokens *)

Lemma bind_Ok {A B} (m : Result A) (k : A -> Result B) (b : B) :
  bind m k = Ok b <-> exists a, m = Ok a /\ k a = Ok b.
Proof.
  destruct m as [a|e]; simpl; split.
  - intros H. exists a. auto.
  - intros [a' [E H]]. injection E as ->. exact H.
  - discriminate.
  - intros [a' [E _]]. discriminate.
Qed.

Lemma forOf_push {A} (f : A -> Result jsstring) (l : list A) (acc : list jsstring) :
  forOf l acc (fun acc e => t <- f e ;; Ok (push acc t))
  = (ts <- mapM f l ;; Ok (acc ++ ts)).
Proof.
  revert acc. induction l as [|x rest IH]; intros acc; simpl.
  - now rewrite app_nil_r.
  - destruct (f x) as [t|e]; simpl; [|reflexivity].
    rewrite IH. destruct (mapM f rest) as [ts|e]; simpl; [|reflexivity].
    unfold push. now rewrite <- app_assoc.
Qed.

Lemma forOf_ext {A S} (body' body : S -> A -> Result S) (l : list A) (s : S) :
  (forall s e, body s e = body' s e) -> forOf l s body = forOf l s body'.
Proof.
  intros E. revert s. induction l as [|x rest IH]; intros s; simpl.
  - reflexivity.
  - rewrite E. destruct (body' s x); simpl; auto.
Qed.

Lemma block_method_tokens config parts :
  block_method config parts = (x <- tokens_method config ;; Ok (parts ++ x)).
Proof.
  unfold block_method, tokens_method, method_of.
  destruct (field config "method") as [m|e]; simpl; [|reflexivity].
  destruct (toUpperCase_call _) as [method|e]; simpl; [|reflexivity].
  destruct (negb _); unfold push; [reflexivity | now rewrite app_nil_r].
Qed.

Lemma block_headers_tokens config parts :
  block_headers config parts = (h <- tokens_headers config ;; Ok (parts ++ h)).
Proof.
  unfold block_headers, tokens_headers.
  destruct (truthy _); simpl; [|now rewrite app_nil_r].
  destruct (Object_entries _) as [entries|e]; simpl; [|reflexivity].
  rewrite <- (forOf_push header_flag).
  revert parts. induction entries as [|[k v] rest IH]; intros parts; simpl.
  - reflexivity.
  - unfold header_flag at 1. simpl. destruct (replace_call v); simpl; auto.
Qed.

Lemma block_form_tokens config parts :
  block_form config parts = (f <- tokens_form config ;; Ok (parts ++ f)).
Proof.
  unfold block_form, tokens_form.
  destruct (truthy _); [|simpl; now rewrite app_nil_r].
  destruct (Object_entries _) as [entries|e]; cbn [bind]; [|reflexivity].
  rewrite (forOf_ext (fun acc e => t <- form_pair e ;; Ok (push acc t))).
  - rewrite forOf_push.
    destruct (mapM form_pair entries) as [formParts|e]; cbn [bind app]; [|reflexivity].
    destruct formParts; simpl; unfold push; [now rewrite app_nil_r | reflexivity].
  - intros acc [k v]. unfold form_pair. cbn [fst snd bind].
    destruct (encodeURIComponent (JStr k)); cbn [bind]; [|reflexivity].
    destruct (encodeURIComponent (coalesce v (JStr []))); reflexivity.
Qed.

Lemma block_json_body_tokens config parts :
  block_json_body config parts = (j <- tokens_json_body config ;; Ok (parts ++ j)).
Proof.
  unfold block_json_body, tokens_json_body, body_flag.
  destruct (_ && _); simpl; [|now rewrite app_nil_r].
  destruct (escapedBody _); reflexivity.
Qed.

Lemma block_raw_body_tokens config parts :
  block_raw_body config parts = (r <- tokens_raw_body config ;; Ok (parts ++ r)).
Proof.
  unfold block_raw_body, tokens_raw_body, body_flag.
  destruct (_ && _); simpl; [|now rewrite app_nil_r].
  destruct (escapedBody _); reflexivity.
Qed.

Lemma block_timeout_tokens config parts :
  block_timeout config parts = (t <- tokens_timeout config ;; Ok (parts ++ t)).
Proof.
  unfold block_timeout, tokens_timeout.
  destruct (truthy _); simpl; [|now rewrite app_nil_r].
  destruct (ceilSeconds _); reflexivity.
Qed.

Lemma block_url_tokens config parts :
  block_url config parts = (u <- tokens_url config ;; Ok (parts ++ u)).
Proof.
  unfold block_url, tokens_url. cbv zeta.
  destruct (truthy _); simpl; [|now rewrite app_nil_r].
  destruct (ToString _); reflexivity.
Qed.

Lemma block_gzip_tokens config parts :
  block_gzip config parts = parts ++ block_gzip config [].
Proof. unfold block_gzip, push. destruct (truthy _); simpl; auto using app_nil_r. Qed.

Lemma block_insecure_tokens config parts :
  block_insecure config parts = parts ++ block_insecure config [].
Proof. unfold block_insecure, push. destruct (strictly_false _); simpl; auto using app_nil_r. Qed.

Lemma block_redirects_tokens config parts :
  block_redirects config parts = parts ++ block_redirects config [].
Proof. unfold block_redirects, push. destruct (_ || _); simpl; auto using app_nil_r. Qed.

Lemma block_full_response_tokens config parts :
  block_full_response config parts = parts ++ block_full_response config [].
Proof. unfold block_full_response, push. destruct (truthy _); simpl; auto using app_nil_r. Qed.

(** The array is the base token followed by the tokens of the blocks, in
    the order of the source. *)
Lemma jsonToCurl_parts_assemble config :
  jsonToCurl_parts config = assemble config.
Proof.
  unfold jsonToCurl_parts, assemble. cbv zeta.
  rewrite block_method_tokens.
  destruct (tokens_method config) as [x|e]; simpl; [|reflexivity].
  rewrite block_headers_tokens.
  destruct (tokens_headers config) as [h|e]; simpl; [|reflexivity].
  rewrite block_form_tokens.
  destruct (tokens_form config) as [f|e]; simpl; [|reflexivity].
  rewrite block_json_body_tokens.
  destruct (tokens_json_body config) as [j|e]; simpl; [|reflexivity].
  rewrite block_raw_body_tokens.
  destruct (tokens_raw_body config) as [r|e]; simpl; [|reflexivity].
  rewrite block_timeout_tokens.
  destruct (tokens_timeout config) as [t|e]; simpl; [|reflexivity].
  rewrite block_url_tokens.
  destruct (tokens_url config) as [u|e]; simpl; [|reflexivity].
  rewrite block_full_response_tokens, block_redirects_tokens,
    block_insecure_tokens, block_gzip_tokens.
  f_equal. simpl. f_equal.
  repeat rewrite <- app_assoc. reflexivity.
Qed.

(** ** Lists, prefixes and loops *)

Lemma startsWith_inv (p t : jsstring) :
  startsWith p t = true -> exists rest, t = p ++ rest.
Proof.
  revert t. induction p as [|x p IH]; intros t H; simpl in *.
  - now exists t.
  - destruct t as [|y t]; [discriminate|].
    apply andb_true_iff in H as [E H]. apply N.eqb_eq in E. subst y.
    destruct (IH _ H) as [rest ->]. now exists rest.
Qed.

Lemma jsstring_eqb_eq (a b : jsstring) : jsstring_eqb a b = true <-> a = b.
Proof.
  revert b. induction a as [|x a IH]; intros [|y b]; simpl; split; try easy.
  - intros H. apply andb_true_iff in H as [E H]. apply N.eqb_eq in E.
    apply IH in H. congruence.
  - intros H. injection H as -> ->. rewrite N.eqb_refl. now apply IH.
Qed.

Lemma filter_none {A} (p : A -> bool) (l : list A) :
  Forall (fun x => p x = false) l -> filter p l = [].
Proof.
  induction 1 as [|x l E _ IH]; simpl; [reflexivity|]. now rewrite E.
Qed.

Lemma filter_all {A} (p : A -> bool) (l : list A) :
  Forall (fun x => p x = true) l -> filter p l = l.
Proof.
  induction 1 as [|x l E _ IH]; simpl; [reflexivity|]. rewrite E. now f_equal.
Qed.

Lemma flags_miss (q p : string) (g : list jsstring) :
  starts p g ->
  (forall rest, is_flag q (lit p ++ rest) = false) ->
  flags q g = [].
Proof.
  intros H D. apply filter_none. eapply Forall_impl; [|exact H].
  intros t [rest ->]. apply D.
Qed.

Lemma flags_hit (q p : string) (g : list jsstring) :
  starts p g ->
  (forall rest, is_flag q (lit p ++ rest) = true) ->
  flags q g = g.
Proof.
  intros H D. apply filter_all. eapply Forall_impl; [|exact H].
  intros t [rest ->]. apply D.
Qed.

Lemma flags_app (q : string) (a b : list jsstring) :
  flags q (a ++ b) = flags q a ++ flags q b.
Proof. apply filter_app. Qed.

Lemma starts_nil (p : string) : starts p [].
Proof. constructor. Qed.

Lemma starts_one (p : string) (rest : jsstring) : starts p [lit p ++ rest].
Proof. repeat constructor. now exists rest. Qed.

Lemma mapM_Forall2 {A B} (f : A -> Result B) (l : list A) (ys : list B) :
  mapM f l = Ok ys <-> Forall2 (fun x y => f x = Ok y) l ys.
Proof.
  revert ys. induction l as [|x l IH]; intros ys; simpl.
  - split; [intros [= <-]; constructor | inversion 1; reflexivity].
  - rewrite bind_Ok. split.
    + intros [y [E H]]. apply bind_Ok in H as [ys' [H [= <-]]].
      constructor; [exact E | now apply IH].
    + inversion 1 as [|? y ? ys' E H']; subst.
      exists y. split; [exact E|]. apply IH in H'. now rewrite H'.
Qed.

Lemma mapM_total {A B} (f : A -> Result B) (l : list A) :
  Forall (fun x => exists y, f x = Ok y) l -> exists ys, mapM f l = Ok ys.
Proof.
  induction 1 as [|x l [y E] _ [ys IH]]; simpl.
  - now exists [].
  - rewrite E, IH. simpl. now exists (y :: ys).
Qed.

(** ** Own property order *)

Lemma In_insert_by_index {A} (n : N) (e : jsstring * A) l x :
  In x (insert_by_index n e l) <-> x = (n, e) \/ In x l.
Proof.
  induction l as [|[m e'] l IH]; simpl.
  - intuition.
  - destruct (n <? m)%N; simpl; [intuition|]. rewrite IH. intuition.
Qed.

Lemma In_indexed {A} (props : list (jsstring * A)) x :
  In x (indexed props) -> In (snd x) props.
Proof.
  induction props as [|[k v] rest IH]; simpl; [easy|].
  destruct (array_index k) as [n|]; [|auto].
  rewrite In_insert_by_index. intros [->|H]; simpl; auto.
Qed.

Lemma In_ownEntries {A} (props : list (jsstring * A)) e :
  In e (ownEntries props) -> In e props.
Proof.
  unfold ownEntries, named. rewrite in_app_iff, in_map_iff, filter_In.
  intros [[x [<- H]]|[H _]]; [now apply In_indexed | exact H].
Qed.

Lemma Forall_ownEntries {A} (P : jsstring * A -> Prop) (props : list (jsstring * A)) :
  Forall P props -> Forall P (ownEntries props).
Proof.
  rewrite !Forall_forall. intros H e He. apply H. now apply In_ownEntries.
Qed.

Lemma insert_by_index_not_nil {A} (n : N) (e : jsstring * A) l :
  insert_by_index n e l <> [].
Proof. destruct l as [|[m e'] l]; simpl; [easy|]. now destruct (n <? m)%N. Qed.

Lemma ownEntries_not_nil {A} (props : list (jsstring * A)) :
  props <> [] -> ownEntries props <> [].
Proof.
  destruct props as [|[k v] rest]; [easy|]. intros _.
  unfold ownEntries, named, is_array_index. simpl.
  destruct (array_index k) as [n|]; simpl; [|now destruct (map snd _)].
  intros H. apply app_eq_nil in H as [H _].
  apply map_eq_nil in H. now apply insert_by_index_not_nil in H.
Qed.

(** With no array index among the names, the order is the order of
    creation. *)
Lemma ownEntries_named {A} (props : list (jsstring * A)) :
  forallb (fun e => negb (is_array_index (fst e))) props = true ->
  ownEntries props = props.
Proof.
  intros H. unfold ownEntries, named.
  assert (E : indexed props = []).
  { induction props as [|[k v] rest IH]; simpl in *; [reflexivity|].
    apply andb_true_iff in H as [Hk H]. unfold is_array_index in Hk.
    destruct (array_index k); [discriminate | auto]. }
  rewrite E. simpl. apply filter_all, Forall_forall.
  now apply (proj1 (forallb_forall _ _)).
Qed.

(** ** Anatomy of the array *)

(** The string returned is the array joined with the separator. *)
Lemma jsonToCurl_join config out :
  jsonToCurl config = Ok out <->
  exists parts, jsonToCurl_parts config = Ok parts /\ out = join separator parts.
Proof.
  unfold jsonToCurl. rewrite bind_Ok. split.
  - intros [parts [H [= <-]]]. now exists parts.
  - intros [parts [H ->]]. now exists parts.
Qed.

Lemma starts_method config x : tokens_method config = Ok x -> starts "-X " x.
Proof.
  unfold tokens_method. intros H. apply bind_Ok in H as [method [_ [= <-]]].
  destruct (negb _); [apply (starts_one "-X " method) | apply starts_nil].
Qed.

Lemma starts_headers config h : tokens_headers config = Ok h -> starts "-H '" h.
Proof.
  unfold tokens_headers. destruct (truthy _); [|intros [= <-]; apply starts_nil].
  intros H. apply bind_Ok in H as [entries [_ H]].
  apply mapM_Forall2 in H. induction H as [|e t entries h E _ IH]; [apply starts_nil|].
  constructor; [|exact IH].
  unfold header_flag in E. apply bind_Ok in E as [v [_ [= <-]]].
  now exists (fst e ++ lit ": " ++ v ++ lit "'").
Qed.

Lemma starts_form_flag formParts : starts "-d '" (form_flag formParts).
Proof.
  destruct formParts as [|a l]; [apply starts_nil|].
  apply (starts_one "-d '" (join (lit "&") (a :: l) ++ lit "'")).
Qed.

Lemma starts_form config f : tokens_form config = Ok f -> starts "-d '" f.
Proof.
  unfold tokens_form. destruct (truthy _); [|intros [= <-]; apply starts_nil].
  intros H. apply bind_Ok in H as [entries [_ H]].
  apply bind_Ok in H as [formParts [_ [= <-]]]. apply starts_form_flag.
Qed.

Lemma starts_body_flag body g : body_flag body = Ok g -> starts "-d '" g.
Proof.
  unfold body_flag. intros H. apply bind_Ok in H as [escaped [_ [= <-]]].
  apply (starts_one "-d '" (escaped ++ lit "'")).
Qed.

Lemma starts_json_body config j : tokens_json_body config = Ok j -> starts "-d '" j.
Proof.
  unfold tokens_json_body. destruct (_ && _); [apply starts_body_flag|].
  intros [= <-]; apply starts_nil.
Qed.

Lemma starts_raw_body config r : tokens_raw_body config = Ok r -> starts "-d '" r.
Proof.
  unfold tokens_raw_body. destruct (_ && _); [apply starts_body_flag|].
  intros [= <-]; apply starts_nil.
Qed.

Lemma starts_timeout config t : tokens_timeout config = Ok t -> starts "--max-time " t.
Proof.
  unfold tokens_timeout. destruct (truthy _); [|intros [= <-]; apply starts_nil].
  intros H. apply bind_Ok in H as [sec [_ [= <-]]].
  apply (starts_one "--max-time " sec).
Qed.

Lemma starts_url config u : tokens_url config = Ok u -> starts "'" u.
Proof.
  unfold tokens_url. cbv zeta. destruct (truthy _); [|intros [= <-]; apply starts_nil].
  intros H. apply bind_Ok in H as [text [_ [= <-]]].
  apply (starts_one "'" (text ++ lit "'")).
Qed.

Lemma starts_gzip config : starts "--compressed" (block_gzip config []).
Proof.
  unfold block_gzip. destruct (truthy _); [|apply starts_nil].
  apply (starts_one "--compressed" []).
Qed.

Lemma starts_insecure config : starts "-k" (block_insecure config []).
Proof.
  unfold block_insecure. destruct (strictly_false _); [|apply starts_nil].
  apply (starts_one "-k" []).
Qed.

Lemma starts_redirects config : starts "-L" (block_redirects config []).
Proof.
  unfold block_redirects. destruct (_ || _); [|apply starts_nil].
  apply (starts_one "-L" []).
Qed.

Lemma starts_full_response config : starts "-i" (block_full_response config []).
Proof.
  unfold block_full_response. destruct (truthy _); [|apply starts_nil].
  apply (starts_one "-i" []).
Qed.

Ltac foreign HI :=
  match type of HI with
  | In _ ?g =>
      match goal with
      | S : starts _ ?g' |- _ =>
          unify g g';
          apply (proj1 (Forall_forall _ _) S) in HI; destruct HI as [rest HI];
          cbv in HI; discriminate HI
      end
  end.

Ltac settle q H :=
  first [ rewrite (flags_miss q H) by (intros; reflexivity)
        | rewrite (flags_hit q H) by (intros; reflexivity) ].

Ltac settle_all q :=
  repeat match goal with
         | H : starts _ ?g |- context [flags q ?g] => settle q H
         end.

(** The array of a run that returns: the base token, then the tokens of the
    blocks; and where in it the flags with an argument and the URL token
    are. *)
Lemma anatomy config parts :
  jsonToCurl_parts config = Ok parts ->
  exists x h f j r t u,
    tokens_method config = Ok x /\ tokens_headers config = Ok h /\
    tokens_form config = Ok f /\ tokens_json_body config = Ok j /\
    tokens_raw_body config = Ok r /\ tokens_timeout config = Ok t /\
    tokens_url config = Ok u /\
    parts = lit "curl" :: x ++ h ++ f ++ j ++ r
              ++ block_gzip config [] ++ block_insecure config []
              ++ block_redirects config [] ++ t
              ++ block_full_response config [] ++ u /\
    flags "-X " parts = x /\ flags "-H " parts = h /\
    flags "-d " parts = f ++ j ++ r /\ flags "--max-time " parts = t /\
    url_tokens parts = u /\
    (In (lit "-k") parts <-> In (lit "-k") (block_insecure config [])).
Proof.
  rewrite jsonToCurl_parts_assemble. unfold assemble. intros H.
  apply bind_Ok in H as [x [Hx H]]. apply bind_Ok in H as [h [Hh H]].
  apply bind_Ok in H as [f [Hf H]]. apply bind_Ok in H as [j [Hj H]].
  apply bind_Ok in H as [r [Hr H]]. apply bind_Ok in H as [t [Ht H]].
  apply bind_Ok in H as [u [Hu [= <-]]].
  exists x, h, f, j, r, t, u. repeat (split; [assumption|]).
  split; [reflexivity|].
  pose proof (starts_method _ Hx) as Sx. pose proof (starts_headers _ Hh) as Sh.
  pose proof (starts_form _ Hf) as Sf. pose proof (starts_json_body _ Hj) as Sj.
  pose proof (starts_raw_body _ Hr) as Sr. pose proof (starts_timeout _ Ht) as St.
  pose proof (starts_url _ Hu) as Su.
  pose proof (starts_gzip config) as Sg. pose proof (starts_insecure config) as Sk.
  pose proof (starts_redirects config) as SL.
  pose proof (starts_full_response config) as Si.
  pose proof (starts_one "curl" []) as Sc.
  change (lit "curl" ++ []) with (lit "curl") in Sc.
  change (lit "curl" :: ?l) with ([lit "curl"] ++ l).
  change (url_tokens ?l) with (flags "'" l).
  repeat split.
  - rewrite !flags_app. settle_all ("-X "%string). cbn [app]. now rewrite ?app_nil_r.
  - rewrite !flags_app. settle_all ("-H "%string). cbn [app]. now rewrite ?app_nil_r.
  - rewrite !flags_app. settle_all ("-d "%string). cbn [app]. now rewrite ?app_nil_r.
  - rewrite !flags_app. settle_all ("--max-time "%string). cbn [app]. now rewrite ?app_nil_r.
  - rewrite !flags_app. settle_all ("'"%string). cbn [app]. now rewrite ?app_nil_r.
  - rewrite !in_app_iff. intros HI.
    repeat (destruct HI as [HI|HI]; [first [exact HI | exfalso; foreign HI]|]).
    exfalso; foreign HI.
  - intros HI. rewrite !in_app_iff. tauto.
Qed.

(** ** Properties of the translator *)

Lemma ascii_upper_inv (c u : codeunit) :
  ascii_upper c = u -> (65 <= u <= 90)%N -> c = u \/ c = (u + 32)%N.
Proof.
  unfold ascii_upper.
  destruct (97 <=? c)%N eqn:E1; destruct (c <=? 122)%N eqn:E2; simpl;
    intros <- ?; try (now left).
  apply N.leb_le in E1. right. lia.
Qed.

Lemma toUpperCase_post (m : jsstring) :
  same_letters m (lit "post") -> toUpperCase m = lit "POST".
Proof.
  unfold same_letters.
  destruct m as [|a [|b [|c [|d [|e m]]]]]; try discriminate.
  intros [= Ha Hb Hc Hd].
  apply ascii_upper_inv in Ha; [|cbv; split; discriminate].
  apply ascii_upper_inv in Hb; [|cbv; split; discriminate].
  apply ascii_upper_inv in Hc; [|cbv; split; discriminate].
  apply ascii_upper_inv in Hd; [|cbv; split; discriminate].
  destruct Ha as [-> | ->], Hb as [-> | ->], Hc as [-> | ->], Hd as [-> | ->];
    reflexivity.
Qed.

(** C6.  The array holds a [-X] flag exactly when the upper-cased method is
    not GET, and the flag is [-X] followed by the upper-cased method; the
    method is the [method] field, or GET when the field is absent (or
    otherwise falsy); with no [method] field there is no [-X] flag; and
    [post], in any case of its letters, gives exactly [-X POST]. *)
Theorem method_flag_iff_not_GET (config : JsVal) (parts : list jsstring) :
  jsonToCurl_parts config = Ok parts ->
  exists s,
    or_ (prop config "method") (JStr (lit "GET")) = JStr s /\
    (flags "-X " parts <> [] <-> toUpperCase s <> lit "GET") /\
    (toUpperCase s <> lit "GET" ->
       flags "-X " parts = [lit "-X " ++ toUpperCase s]) /\
    (prop config "method" = JUndefined -> s = lit "GET" /\ flags "-X " parts = []) /\
    (forall m, prop config "method" = JStr m -> same_letters m (lit "post") ->
       flags "-X " parts = [lit "-X POST"]).
Proof.
  intros H. apply anatomy in H
    as (x & h & f & j & r & t & u & Hx & _ & _ & _ & _ & _ & _ & _ & FX & _).
  rewrite FX. clear FX parts.
  unfold tokens_method, method_of in Hx.
  apply bind_Ok in Hx as [method [Hm [= <-]]].
  apply bind_Ok in Hm as [m [Hf Hm]].
  unfold field in Hf. destruct (nullish config); [discriminate|].
  injection Hf as <-.
  destruct (or_ (prop config "method") (JStr (lit "GET"))) as [| | | |s| |] eqn:E;
    try discriminate.
  simpl in Hm. injection Hm as <-. exists s. split; [reflexivity|].
  assert (G : forall w, (if negb (jsstring_eqb w (lit "GET")) then [lit "-X " ++ w] else [])
                        <> @nil jsstring <-> w <> lit "GET").
  { intros w. destruct (jsstring_eqb w (lit "GET")) eqn:B; simpl.
    - apply jsstring_eqb_eq in B. split; [easy | intros N; now elim N].
    - split; [|easy]. intros _ C. apply jsstring_eqb_eq in C. congruence. }
  split; [apply G|]. split.
  { intros N. destruct (jsstring_eqb (toUpperCase s) (lit "GET")) eqn:B; simpl; [|reflexivity].
    apply jsstring_eqb_eq in B. now elim N. }
  split.
  - intros U. rewrite U in E. unfold or_ in E. simpl in E. injection E as <-.
    split; reflexivity.
  - intros m Hp L. rewrite Hp in E. unfold or_ in E.
    assert (T : truthy (JStr m) = true).
    { destruct m; [discriminate L | reflexivity]. }
    rewrite T in E. injection E as <-. now rewrite (toUpperCase_post L).
Qed.



(** C8.  The array holds [-k] exactly when [rejectUnauthorized] is the
    boolean [false]; [true], [undefined], [0] and an absent field give no
    [-k]. *)
Theorem insecure_flag_iff_exactly_false (config : JsVal) (parts : list jsstring) :
  jsonToCurl_parts config = Ok parts ->
  (In (lit "-k") parts <-> prop config "rejectUnauthorized" = JBool false) /\
  (forall v, In v [JBool true; JUndefined; JNum 0] ->
     prop config "rejectUnauthorized" = v -> ~ In (lit "-k") parts) /\
  (forall props, config = JObj props ->
     lookup (lit "rejectUnauthorized") props = None -> ~ In (lit "-k") parts).
Proof.
  intros H. apply anatomy in H
    as (x & h & f & j & r & t & u & _ & _ & _ & _ & _ & _ & _ & _ & _ & _ & _ & _ & _ & K).
  assert (E : In (lit "-k") parts <-> prop config "rejectUnauthorized" = JBool false).
  { rewrite K. unfold block_insecure, push.
    destruct (prop config "rejectUnauthorized") as [| |[|]| | | |]; simpl;
      split; try easy; auto. }
  split; [exact E|]. split.
  - intros v Hv Hp. rewrite E, Hp. simpl in Hv.
    destruct Hv as [<-|[<-|[<-|[]]]]; discriminate.
  - intros props -> L. rewrite E. unfold prop. rewrite L. discriminate.
Qed.

Lemma url_tokens_of config parts :
  jsonToCurl_parts config = Ok parts ->
  let url := or_ (prop config "uri") (prop config "url") in
  if truthy url
  then exists text, ToString url = Ok text /\ url_tokens parts = [lit "'" ++ text ++ lit "'"]
  else url_tokens parts = [].
Proof.
  intros H. apply anatomy in H
    as (x & h & f & j & r & t & u & _ & _ & _ & _ & _ & _ & Hu & _ & _ & _ & _ & _ & FU & _).
  rewrite FU. clear FU parts. unfold tokens_url in Hu. cbv zeta in *.
  destruct (truthy _).
  - apply bind_Ok in Hu as [text [Ht [= <-]]]. now exists text.
  - now injection Hu as <-.
Qed.

(** C10.  The array holds a URL token exactly when [config.uri || config.url]
    is truthy, and the token is that value between quotes; an empty [url]
    with an absent or empty [uri] gives no URL token; an empty [uri] gives
    way to [url]. *)
Theorem url_token_iff_truthy (config : JsVal) (parts : list jsstring) :
  jsonToCurl_parts config = Ok parts ->
  (url_tokens parts <> [] <-> truthy (or_ (prop config "uri") (prop config "url")) = true) /\
  (truthy (or_ (prop config "uri") (prop config "url")) = true ->
     exists text, ToString (or_ (prop config "uri") (prop config "url")) = Ok text /\
       url_tokens parts = [lit "'" ++ text ++ lit "'"]) /\
  (prop config "url" = JStr [] ->
     prop config "uri" = JUndefined \/ prop config "uri" = JStr [] ->
     url_tokens parts = []) /\
  (prop config "uri" = JStr [] ->
     or_ (prop config "uri") (prop config "url") = prop config "url").
Proof.
  intros H. apply url_tokens_of in H. cbv zeta in H.
  split; [|split; [|split]].
  - destruct (truthy _).
    + destruct H as [text [_ ->]]. easy.
    + rewrite H. easy.
  - intros T. now rewrite T in H.
  - intros U [E|E]; rewrite E, U in H; exact H.
  - intros E. now rewrite E.
Qed.

(** C5 (amended).  When [uri] is truthy the URL token is taken from [uri],
    whatever [url] holds; uri https://x.test with url https://y.test gives
    the token 'https://x.test'. *)
Theorem url_token_from_truthy_uri (config : JsVal) (parts : list jsstring) :
  truthy (prop config "uri") = true ->
  jsonToCurl_parts config = Ok parts ->
  (exists text, ToString (prop config "uri") = Ok text /\
     url_tokens parts = [lit "'" ++ text ++ lit "'"]) /\
  (forall s, prop config "uri" = JStr s -> url_tokens parts = [lit "'" ++ s ++ lit "'"]) /\
  jsonToCurl_parts (obj [("uri", str "https://x.test"); ("url", str "https://y.test")])
  = Ok [lit "curl"; lit "'https://x.test'"].
Proof.
  intros T H. apply url_tokens_of in H. cbv zeta in H.
  unfold or_ in H. rewrite T in H. rewrite T in H.
  split; [exact H|]. split; [|reflexivity].
  intros s E. rewrite E in H. destruct H as [text [[= <-] H]]. exact H.
Qed.

Lemma replace_quotes_flat_map (s : jsstring) :
  replace_quotes s
  = flat_map (fun c => if N.eqb c apostrophe then lit "'\''" else [c]) s.
Proof.
  induction s as [|c s IH]; simpl; [reflexivity|].
  destruct (N.eqb c apostrophe); simpl; now rewrite IH.
Qed.

(** The text of a truthy body: the body itself when it is a string, its
    JSON text otherwise; the conversion never fails. *)
Lemma escapedBody_truthy (body : JsVal) :
  truthy body = true ->
  exists bodyStr,
    escapedBody body = Ok (replace_quotes bodyStr) /\
    (body = JStr bodyStr \/
     is_string body = false /\ JSON_stringify body = Some bodyStr).
Proof.
  destruct body as [| |b|z|s|elems|props]; try discriminate; intros _;
    unfold escapedBody; cbn [is_string JSON_stringify];
    eexists; (split; [reflexivity|]); auto.
Qed.

Lemma mapM_length {A B} (f : A -> Result B) (l : list A) (ys : list B) :
  mapM f l = Ok ys -> List.length ys = List.length l.
Proof.
  intros H. apply mapM_Forall2 in H. induction H; simpl; auto.
Qed.

Lemma Permutation_insert_by_index {A} (n : N) (e : jsstring * A) l :
  Permutation (map snd (insert_by_index n e l)) (e :: map snd l).
Proof.
  induction l as [|[m e'] l IH]; simpl; [reflexivity|].
  destruct (n <? m)%N; simpl; [reflexivity|].
  rewrite IH. apply perm_swap.
Qed.

(** The own-property order is a rearrangement of the properties. *)
Lemma Permutation_ownEntries {A} (props : list (jsstring * A)) :
  Permutation (ownEntries props) props.
Proof.
  unfold ownEntries, named.
  induction props as [|[k v] rest IH]; simpl; [reflexivity|].
  unfold is_array_index at 1. simpl.
  destruct (array_index k) as [n|]; simpl.
  - rewrite Permutation_insert_by_index. simpl. now constructor.
  - symmetry. apply Permutation_cons_app. now symmetry.
Qed.

(** C1 (amended).  The form block and the JSON-body block are independent:
    with a non-empty [form] mapping, a truthy [body] and a truthy [json],
    an array that is returned holds exactly two [-d] flags, the one of the
    form first and the one of the body second. *)
Theorem form_and_json_body_both_emit (config : JsVal) (parts : list jsstring)
    (fprops : list (jsstring * JsVal)) :
  prop config "form" = JObj fprops -> fprops <> [] ->
  truthy (prop config "body") = true ->
  truthy (prop config "json") = true ->
  jsonToCurl_parts config = Ok parts ->
  exists formParts bodyStr,
    mapM form_pair (ownEntries fprops) = Ok formParts /\
    (prop config "body" = JStr bodyStr \/
     is_string (prop config "body") = false /\
     JSON_stringify (prop config "body") = Some bodyStr) /\
    flags "-d " parts
    = [lit "-d '" ++ join (lit "&") formParts ++ lit "'";
       lit "-d '" ++ replace_quotes bodyStr ++ lit "'"].
Proof.
  intros Ef Hne Tb Tj H. apply anatomy in H
    as (x & h & f & j & r & t & u & _ & _ & Hf & Hj & Hr & _ & _ & _ & _ & _ & FD & _).
  rewrite FD. clear FD parts.
  unfold tokens_form in Hf. rewrite Ef in Hf. simpl in Hf.
  apply bind_Ok in Hf as [formParts [Hm [= <-]]].
  unfold tokens_json_body in Hj. rewrite Tb, Tj in Hj. simpl in Hj.
  unfold tokens_raw_body in Hr. rewrite Tb, Tj in Hr. simpl in Hr.
  injection Hr as <-.
  destruct (escapedBody_truthy _ Tb) as [bodyStr [Eb Hb]].
  unfold body_flag in Hj. rewrite Eb in Hj. simpl in Hj. injection Hj as <-.
  exists formParts, bodyStr. split; [exact Hm|]. split; [exact Hb|].
  destruct formParts as [|a l]; [|reflexivity].
  apply mapM_length in Hm. apply ownEntries_not_nil in Hne.
  destruct (ownEntries fprops); [contradiction | discriminate].
Qed.

(** C2 (amended).  With a truthy [body], a falsy [json] and a falsy [form]
    (an absent one; an empty mapping is truthy), an array that is returned
    holds exactly one [-d] flag; its payload is [body] itself when [body]
    is a string and the compact JSON text of [body] otherwise, with each
    quote replaced by the four characters quote, backslash, quote, quote. *)
Theorem raw_body_flag (config : JsVal) (parts : list jsstring) :
  truthy (prop config "body") = true ->
  truthy (prop config "json") = false ->
  truthy (prop config "form") = false ->
  jsonToCurl_parts config = Ok parts ->
  exists bodyStr,
    (prop config "body" = JStr bodyStr \/
     is_string (prop config "body") = false /\
     JSON_stringify (prop config "body") = Some bodyStr) /\
    flags "-d " parts
    = [lit "-d '"
         ++ flat_map (fun c => if N.eqb c apostrophe then lit "'\''" else [c]) bodyStr
         ++ lit "'"].
Proof.
  intros Tb Tj Tf H. apply anatomy in H
    as (x & h & f & j & r & t & u & _ & _ & Hf & Hj & Hr & _ & _ & _ & _ & _ & FD & _).
  rewrite FD. clear FD parts.
  unfold tokens_form in Hf. rewrite Tf in Hf. injection Hf as <-.
  unfold tokens_json_body in Hj. rewrite Tb, Tj in Hj. simpl in Hj. injection Hj as <-.
  unfold tokens_raw_body in Hr. rewrite Tb, Tj, Tf in Hr. simpl in Hr.
  destruct (escapedBody_truthy _ Tb) as [bodyStr [Eb Hb]].
  unfold body_flag in Hr. rewrite Eb in Hr. simpl in Hr. injection Hr as <-.
  exists bodyStr. split; [exact Hb|]. now rewrite <- replace_quotes_flat_map.
Qed.

(** C3 (amended).  With a [headers] mapping, an array that is returned holds
    exactly one [-H] flag per header, in the own-property order of the
    mapping: array-index names first, ascending, then the other names in
    insertion order, which is the insertion order when no name is an array
    index.  Each flag is [-H '<name>: <value>'] where every quote of the
    value is replaced by quote, backslash, quote, quote. *)
Theorem header_flags_in_own_order (config : JsVal) (parts : list jsstring)
    (hprops : list (jsstring * JsVal)) :
  prop config "headers" = JObj hprops ->
  jsonToCurl_parts config = Ok parts ->
  Forall2 (fun e tok => exists value,
             snd e = JStr value /\
             tok = lit "-H '" ++ fst e ++ lit ": "
                     ++ flat_map (fun c => if N.eqb c apostrophe
                                           then lit "'\''" else [c]) value
                     ++ lit "'")
          (ownEntries hprops) (flags "-H " parts) /\
  Permutation (ownEntries hprops) hprops /\
  (forallb (fun e => negb (is_array_index (fst e))) hprops = true ->
   ownEntries hprops = hprops).
Proof.
  intros Eh H. apply anatomy in H
    as (x & h & f & j & r & t & u & _ & Hh & _ & _ & _ & _ & _ & _ & _ & FH & _).
  rewrite FH. clear FH parts.
  unfold tokens_headers in Hh. rewrite Eh in Hh. simpl in Hh.
  apply mapM_Forall2 in Hh.
  split; [|split; [apply Permutation_ownEntries | apply ownEntries_named]].
  eapply Forall2_impl; [|exact Hh].
  intros [k v] tok E. unfold header_flag in E. simpl in E.
  destruct v as [| | | |value| |]; try discriminate.
  simpl in E. injection E as <-. exists value.
  split; [reflexivity|]. now rewrite <- replace_quotes_flat_map.
Qed.

(** C4 (amended).  With a non-empty [form] mapping, an array that is
    returned holds one [-d] flag for the form, before any flag of the body:
    its payload joins with [&] one [name=value] per entry, names and values
    percent-encoded, a null or undefined value taken as the empty string,
    in the own-property order of the mapping (the insertion order when no
    name is an array index).  The form a=1, b=two words gives
    [-d 'a=1&b=two%20words']. *)
Theorem form_flag_percent_encoded (config : JsVal) (parts : list jsstring)
    (fprops : list (jsstring * JsVal)) :
  prop config "form" = JObj fprops -> fprops <> [] ->
  jsonToCurl_parts config = Ok parts ->
  (exists formParts rest,
     Forall2 (fun e pair => exists k v,
                Encode (fst e) = Ok k /\
                encodeURIComponent (coalesce (snd e) (JStr [])) = Ok v /\
                (nullish (snd e) = true -> v = []) /\
                pair = k ++ lit "=" ++ v)
             (ownEntries fprops) formParts /\
     flags "-d " parts = (lit "-d '" ++ join (lit "&") formParts ++ lit "'") :: rest /\
     (truthy (prop config "body") && truthy (prop config "json") = false -> rest = [])) /\
  (forallb (fun e => negb (is_array_index (fst e))) fprops = true ->
   ownEntries fprops = fprops) /\
  jsonToCurl_parts (obj [("form", obj [("a", str "1"); ("b", str "two words")])])
  = Ok [lit "curl"; lit "-d 'a=1&b=two%20words'"].
Proof.
  intros Ef Hne H. apply anatomy in H
    as (x & h & f & j & r & t & u & _ & _ & Hf & Hj & Hr & _ & _ & _ & _ & _ & FD & _).
  rewrite FD. clear FD parts.
  split; [|split; [apply ownEntries_named | reflexivity]].
  unfold tokens_form in Hf. rewrite Ef in Hf. simpl in Hf.
  apply bind_Ok in Hf as [formParts [Hm [= <-]]].
  unfold tokens_raw_body in Hr. rewrite Ef in Hr. simpl in Hr.
  rewrite andb_false_r in Hr. injection Hr as <-.
  exists formParts, j. split; [|split].
  - apply mapM_Forall2 in Hm. eapply Forall2_impl; [|exact Hm].
    intros [name value] pair E. unfold form_pair in E. simpl in *.
    apply bind_Ok in E as [k [Ek E]]. apply bind_Ok in E as [v [Ev [= <-]]].
    exists k, v. repeat split; try assumption.
    intros N. unfold coalesce in Ev. rewrite N in Ev. now injection Ev as <-.
  - destruct formParts as [|a l]; [|simpl; now rewrite app_nil_r].
    apply mapM_length in Hm. apply ownEntries_not_nil in Hne.
    destruct (ownEntries fprops); [contradiction | discriminate].
  - intros C. unfold tokens_json_body in Hj. rewrite C in Hj. now injection Hj as <-.
Qed.

Lemma uri_unreserved_ascii (c : codeunit) :
  uri_unreserved c = true -> (c < 128)%N.
Proof.
  unfold uri_unreserved, is_alnum. simpl.
  repeat rewrite orb_true_iff. repeat rewrite andb_true_iff.
  repeat rewrite N.leb_le. repeat rewrite N.eqb_eq. lia.
Qed.

Lemma ascii_not_surrogate (c : codeunit) :
  (c < 128)%N -> is_low_surrogate c = false /\ is_high_surrogate c = false.
Proof.
  intros H. unfold is_low_surrogate, is_high_surrogate.
  split; apply andb_false_iff; left; apply N.leb_gt; lia.
Qed.

(** A string with no unpaired surrogate can be percent-encoded. *)
Lemma Encode_total (s : jsstring) :
  well_formed_utf16 s = true -> exists r, Encode s = Ok r.
Proof.
  remember (List.length s) as n eqn:L. revert s L.
  induction n as [n IH] using lt_wf_ind. intros s -> W.
  destruct s as [|c rest]; [now exists []|].
  cbn [Encode well_formed_utf16] in *.
  destruct (uri_unreserved c) eqn:U.
  - apply uri_unreserved_ascii, ascii_not_surrogate in U as [Lo Hi].
    rewrite Lo, Hi in W.
    destruct (IH (List.length rest) ltac:(simpl; lia) rest eq_refl W) as [r ->].
    simpl. eauto.
  - destruct (is_low_surrogate c); [discriminate|].
    destruct (is_high_surrogate c).
    + destruct rest as [|d rest']; [discriminate|].
      apply andb_true_iff in W as [Ld W]. rewrite Ld.
      destruct (IH (List.length rest') ltac:(simpl; lia) rest' eq_refl W) as [r ->].
      simpl. eauto.
    + destruct (IH (List.length rest) ltac:(simpl; lia) rest eq_refl W) as [r ->].
      simpl. eauto.
Qed.

Lemma method_total (config : JsVal) :
  nullish config = false ->
  optional is_string (prop config "method") = true ->
  exists x, tokens_method config = Ok x.
Proof.
  intros N O. unfold tokens_method, method_of, field, or_. rewrite N. simpl.
  destruct (prop config "method") as [| | | |[|c s]| |]; try discriminate;
    simpl; eauto.
Qed.

Lemma headers_total (config : JsVal) :
  optional (is_mapping is_string) (prop config "headers") = true ->
  exists h, tokens_headers config = Ok h.
Proof.
  intros O. unfold tokens_headers.
  destruct (prop config "headers") as [| | | | | |props]; try discriminate;
    simpl; eauto.
  apply mapM_total, Forall_ownEntries, Forall_forall.
  simpl in O. intros [k v] I.
  apply (proj1 (forallb_forall _ _) O) in I. simpl in I.
  destruct v; try discriminate. unfold header_flag. simpl. eauto.
Qed.

Lemma form_total (config : JsVal) :
  optional (is_mapping anything) (prop config "form") = true ->
  form_encodable config = true ->
  exists f, tokens_form config = Ok f.
Proof.
  intros O E. unfold tokens_form. unfold form_encodable in E.
  destruct (prop config "form") as [| | | | | |props]; try discriminate;
    simpl; eauto.
  assert (M : exists formParts, mapM form_pair (ownEntries props) = Ok formParts).
  { apply mapM_total, Forall_ownEntries, Forall_forall. intros [k v] I.
    apply (proj1 (forallb_forall _ _) E) in I. simpl in I.
    apply andb_true_iff in I as [Wk Wv].
    unfold form_pair, encodeURIComponent. simpl.
    destruct (Encode_total _ Wk) as [ek ->]. simpl.
    unfold encodable in Wv. destruct (ToString (coalesce v (JStr []))); [|discriminate].
    simpl. destruct (Encode_total _ Wv) as [ev ->]. simpl. eauto. }
  destruct M as [formParts ->]. simpl. eauto.
Qed.

Lemma body_flag_total (body : JsVal) :
  truthy body = true -> exists g, body_flag body = Ok g.
Proof.
  intros T. destruct (escapedBody_truthy _ T) as [bodyStr [E _]].
  unfold body_flag. rewrite E. simpl. eauto.
Qed.

Lemma json_body_total (config : JsVal) : exists j, tokens_json_body config = Ok j.
Proof.
  unfold tokens_json_body. destruct (truthy (prop config "body")) eqn:T; simpl.
  - destruct (truthy (prop config "json")); [now apply body_flag_total | eauto].
  - eauto.
Qed.

Lemma raw_body_total (config : JsVal) : exists r, tokens_raw_body config = Ok r.
Proof.
  unfold tokens_raw_body. destruct (truthy (prop config "body")) eqn:T; simpl.
  - destruct (_ && _); [now apply body_flag_total | eauto].
  - eauto.
Qed.

Lemma timeout_total (config : JsVal) :
  optional is_integer (prop config "timeout") = true ->
  exists t, tokens_timeout config = Ok t.
Proof.
  intros O. unfold tokens_timeout.
  destruct (prop config "timeout"); try discriminate; simpl; eauto.
  destruct (negb _); simpl; eauto.
Qed.

Lemma url_total (config : JsVal) :
  optional is_string (prop config "uri") = true ->
  optional is_string (prop config "url") = true ->
  exists u, tokens_url config = Ok u.
Proof.
  intros O1 O2. unfold tokens_url, or_.
  destruct (prop config "uri") as [| | | |[|c s]| |]; try discriminate;
    destruct (prop config "url") as [| | | |[|d s']| |]; try discriminate;
    simpl; eauto.
Qed.

(** C9 (amended).  On a config of the data model whose form names and form
    values can be percent-encoded (their conversion to a string exists and
    has no unpaired surrogate), [jsonToCurl] returns a string; fields the
    data model does not name are not looked at; the empty object gives
    [curl]. *)
Theorem jsonToCurl_total_when_form_encodes (config : JsVal) :
  well_formed config = true ->
  form_encodable config = true ->
  (exists out, jsonToCurl config = Ok out) /\
  jsonToCurl (JObj []) = Ok (lit "curl").
Proof.
  intros W E. split; [|reflexivity].
  unfold well_formed in W.
  assert (N : nullish config = false) by (destruct config; easy).
  destruct config as [| | | | | |props]; try discriminate.
  repeat match type of W with
         | _ && _ = true => let H := fresh "W" in apply andb_true_iff in W as [W H]
         end.
  unfold jsonToCurl. rewrite jsonToCurl_parts_assemble. unfold assemble.
  destruct (method_total (JObj props)) as [x ->]; try assumption.
  destruct (headers_total (JObj props)) as [h ->]; try assumption.
  destruct (form_total (JObj props)) as [f ->]; try assumption.
  destruct (json_body_total (JObj props)) as [j ->].
  destruct (raw_body_total (JObj props)) as [r ->].
  destruct (timeout_total (JObj props)) as [t ->]; try assumption.
  destruct (url_total (JObj props)) as [u ->]; try assumption.
  cbn [bind]. eauto.
Qed.

(** ** Further properties of the translator *)

(** The array of a run that returns, group by group, with what the tokens
    of each group start with. *)
Lemma token_groups config parts :
  jsonToCurl_parts config = Ok parts ->
  exists x h f j r t u,
    parts = [lit "curl"] ++ x ++ h ++ f ++ j ++ r
              ++ block_gzip config [] ++ block_insecure config []
              ++ block_redirects config [] ++ t
              ++ block_full_response config [] ++ u /\
    starts "-X " x /\ starts "-H '" h /\ starts "-d '" f /\ starts "-d '" j /\
    starts "-d '" r /\ starts "--max-time " t /\ starts "'" u.
Proof.
  intros H. apply anatomy in H
    as (x & h & f & j & r & t & u & Hx & Hh & Hf & Hj & Hr & Ht & Hu & E & _).
  exists x, h, f, j, r, t, u. split; [exact E|].
  repeat split; eauto using starts_method, starts_headers, starts_form,
    starts_json_body, starts_raw_body, starts_timeout, starts_url.
Qed.

Ltac home_group HI :=
  rewrite !in_app_iff in HI;
  repeat (destruct HI as [HI|HI]; [first [exact HI | exfalso; foreign HI]|]);
  first [exact HI | exfalso; foreign HI].

Ltac with_groups H :=
  apply token_groups in H
    as (x & h & f & j & r & t & u & -> & Sx & Sh & Sf & Sj & Sr & St & Su);
  pose proof (starts_one "curl" []) as Sc;
  change (lit "curl" ++ []) with (lit "curl") in Sc;
  match goal with
  | |- context [block_gzip ?config []] =>
      pose proof (starts_gzip config) as Sg;
      pose proof (starts_insecure config) as Sk;
      pose proof (starts_redirects config) as SL;
      pose proof (starts_full_response config) as Si
  end.

(** X1.  The three switches: [--compressed] is in the array exactly when [gzip]
    is truthy, [-L] exactly when [followRedirect] or [followAllRedirects]
    is truthy, and [-i] exactly when [resolveWithFullResponse] is truthy. *)
Theorem switch_flags_iff_truthy (config : JsVal) (parts : list jsstring) :
  jsonToCurl_parts config = Ok parts ->
  (In (lit "--compressed") parts <-> truthy (prop config "gzip") = true) /\
  (In (lit "-L") parts <->
   truthy (prop config "followRedirect") = true \/
   truthy (prop config "followAllRedirects") = true) /\
  (In (lit "-i") parts <-> truthy (prop config "resolveWithFullResponse") = true).
Proof.
  intros H. with_groups H.
  assert (G : In (lit "--compressed") (block_gzip config [])
              <-> truthy (prop config "gzip") = true).
  { unfold block_gzip, push. destruct (truthy (prop config "gzip")); simpl;
      split; intros K.
    all: first [easy | now left]. }
  assert (L : In (lit "-L") (block_redirects config [])
              <-> truthy (prop config "followRedirect") = true \/
                  truthy (prop config "followAllRedirects") = true).
  { unfold block_redirects, push.
    destruct (truthy (prop config "followRedirect")),
      (truthy (prop config "followAllRedirects")); simpl; split; intros K.
    all: first [easy | now left | now right | destruct K; easy]. }
  assert (F : In (lit "-i") (block_full_response config [])
              <-> truthy (prop config "resolveWithFullResponse") = true).
  { unfold block_full_response, push.
    destruct (truthy (prop config "resolveWithFullResponse")); simpl;
      split; intros K.
    all: first [easy | now left]. }
  rewrite <- G, <- L, <- F.
  repeat split; intros HI;
    try (rewrite !in_app_iff; tauto); home_group HI.
Qed.

Lemma starts_rank (p : string) (k : nat) (g : list jsstring) :
  (forall rest, rank (lit p ++ rest) = k) ->
  starts p g -> Forall (fun t => rank t = k) g.
Proof.
  intros R H. eapply Forall_impl; [|exact H]. intros t [rest ->]. apply R.
Qed.

Lemma ordered_group (k : nat) (g l : list jsstring) :
  Forall (fun t => rank t = k) g -> k <= 9 ->
  StronglySorted (fun a b => rank a <= rank b) l /\
  Forall (fun t => k <= rank t <= 9) l ->
  StronglySorted (fun a b => rank a <= rank b) (g ++ l) /\
  Forall (fun t => k <= rank t <= 9) (g ++ l).
Proof.
  intros G K [S B]. induction G as [|t g E _ [IS IB]]; simpl; [auto|].
  split; constructor; auto; [|lia].
  eapply Forall_impl; [|exact IB]. simpl. intros a ?. lia.
Qed.

Lemma ordered_weaken (k k' : nat) (l : list jsstring) :
  k <= k' ->
  StronglySorted (fun a b => rank a <= rank b) l /\
  Forall (fun t => k' <= rank t <= 9) l ->
  StronglySorted (fun a b => rank a <= rank b) l /\
  Forall (fun t => k <= rank t <= 9) l.
Proof.
  intros K [S B]. split; [exact S|].
  eapply Forall_impl; [|exact B]. simpl. intros a ?. lia.
Qed.

Lemma rank_gzip config : Forall (fun t => rank t = 4) (block_gzip config []).
Proof. unfold block_gzip, push. destruct (truthy _); repeat constructor. Qed.

Lemma rank_insecure config : Forall (fun t => rank t = 5) (block_insecure config []).
Proof. unfold block_insecure, push. destruct (strictly_false _); repeat constructor. Qed.

Lemma rank_redirects config : Forall (fun t => rank t = 6) (block_redirects config []).
Proof. unfold block_redirects, push. destruct (_ || _); repeat constructor. Qed.

Lemma rank_full_response config :
  Forall (fun t => rank t = 8) (block_full_response config []).
Proof. unfold block_full_response, push. destruct (truthy _); repeat constructor. Qed.

Ltac next_group k :=
  apply (@ordered_weaken _ k); [lia|]; apply (@ordered_group k); [|lia|].

(** X2.  The order of the command: the array starts with [curl]; after it come,
    in this order, the method flag, the header flags, the [-d] flags,
    [--compressed], [-k], [-L], the [--max-time] flag, [-i] and the URL
    token, and nothing else. *)
Theorem tokens_in_fixed_order (config : JsVal) (parts : list jsstring) :
  jsonToCurl_parts config = Ok parts ->
  exists rest,
    parts = lit "curl" :: rest /\
    StronglySorted (fun a b => rank a <= rank b) rest /\
    Forall (fun t => 1 <= rank t <= 9) rest.
Proof.
  intros H. with_groups H. eexists. split; [reflexivity|].
  rewrite <- (app_nil_r u).
  apply (@ordered_group 1); [|lia|].
  { apply (@starts_rank "-X "); [reflexivity | exact Sx]. }
  next_group 2. { apply (@starts_rank "-H '"); [reflexivity | exact Sh]. }
  next_group 3. { apply (@starts_rank "-d '"); [reflexivity | exact Sf]. }
  next_group 3. { apply (@starts_rank "-d '"); [reflexivity | exact Sj]. }
  next_group 3. { apply (@starts_rank "-d '"); [reflexivity | exact Sr]. }
  next_group 4. { apply rank_gzip. }
  next_group 5. { apply rank_insecure. }
  next_group 6. { apply rank_redirects. }
  next_group 7. { apply (@starts_rank "--max-time "); [reflexivity | exact St]. }
  next_group 8. { apply rank_full_response. }
  next_group 9. { apply (@starts_rank "'"); [reflexivity | exact Su]. }
  split; constructor.
Qed.

(** X3.  The [-d] flags in full.  The form gives at most one flag, and none when
    [form] is falsy.  The body gives one flag, after the flag of the form,
    exactly when it is truthy and either [json] is truthy or [form] is
    falsy; otherwise it gives none.  So [json] changes nothing when [form]
    is falsy, a truthy body is left out when [form] is truthy and [json]
    falsy, and there are never more than two [-d] flags. *)
Theorem d_flags_of_form_and_body (config : JsVal) (parts : list jsstring) :
  jsonToCurl_parts config = Ok parts ->
  exists formFlags,
    tokens_form config = Ok formFlags /\
    List.length formFlags <= 1 /\
    (truthy (prop config "form") = false -> formFlags = []) /\
    (truthy (prop config "body")
     && (truthy (prop config "json") || negb (truthy (prop config "form"))) = false ->
     flags "-d " parts = formFlags) /\
    (truthy (prop config "body")
     && (truthy (prop config "json") || negb (truthy (prop config "form"))) = true ->
     exists bodyStr,
       (prop config "body" = JStr bodyStr \/
        is_string (prop config "body") = false /\
        JSON_stringify (prop config "body") = Some bodyStr) /\
       flags "-d " parts
       = formFlags ++ [lit "-d '" ++ replace_quotes bodyStr ++ lit "'"]) /\
    List.length (flags "-d " parts) <= 2.
Proof.
  intros H. apply anatomy in H
    as (x & h & f & j & r & t & u & _ & _ & Hf & Hj & Hr & _ & _ & _ & _ & _ & FD & _).
  rewrite FD. clear FD parts. exists f. split; [exact Hf|].
  assert (Lf : List.length f <= 1).
  { unfold tokens_form in Hf. destruct (truthy (prop config "form")).
    - apply bind_Ok in Hf as [entries [_ Hf]].
      apply bind_Ok in Hf as [formParts [_ [= <-]]]. destruct formParts; simpl; lia.
    - injection Hf as <-. simpl. lia. }
  assert (Nf : truthy (prop config "form") = false -> f = []).
  { intros T. unfold tokens_form in Hf. rewrite T in Hf. now injection Hf as <-. }
  unfold tokens_json_body in Hj. unfold tokens_raw_body in Hr.
  destruct (truthy (prop config "body")) eqn:Tb.
  - destruct (escapedBody_truthy _ Tb) as [bodyStr [Eb Hb]].
    unfold body_flag in Hj, Hr. rewrite Eb in Hj, Hr. simpl in Hj, Hr.
    destruct (truthy (prop config "json")), (truthy (prop config "form"));
      simpl in *; injection Hj as <-; injection Hr as <-;
      repeat split; auto; try discriminate;
      try (intros _; exists bodyStr; split; [exact Hb | now rewrite ?app_nil_r]);
      rewrite ?app_nil_r, ?length_app; simpl; try lia.
    intros _. now rewrite ?app_nil_r.
  - simpl in *. injection Hj as <-. injection Hr as <-.
    repeat split; auto; try discriminate; rewrite ?app_nil_r; auto; lia.
Qed.

(** X4.  A config that is not an object: [null] and [undefined] make
    [jsonToCurl] throw a TypeError (reading [config.method]); a number, a
    boolean, a string or an array has none of the fields and gives the bare
    command [curl]. *)
Theorem jsonToCurl_of_non_object (config : JsVal) :
  (forall props, config <> JObj props) ->
  jsonToCurl config = if nullish config then Throw TypeError else Ok (lit "curl").
Proof.
  intros H. destruct config; try reflexivity. now elim (H props).
Qed.

(** ** When the translator returns and when it throws *)

Lemma is_ok_bind {A B} (m : Result A) (k : A -> Result B) (b : bool) :
  (forall a, is_ok (k a) = b) -> is_ok (bind m k) = is_ok m && b.
Proof. intros H. destruct m; simpl; auto. Qed.

Lemma is_ok_true {A} (r : Result A) : is_ok r = true <-> exists a, r = Ok a.
Proof.
  destruct r; simpl; split; eauto; try discriminate. now intros [a' H].
Qed.

Lemma is_ok_mapM {A B} (f : A -> Result B) (p : A -> bool) (l : list A) :
  (forall x, is_ok (f x) = p x) -> is_ok (mapM f l) = forallb p l.
Proof.
  intros H. induction l as [|x l IH]; simpl; [reflexivity|].
  rewrite <- H, <- IH. destruct (f x); simpl; [|reflexivity].
  now destruct (mapM f l).
Qed.

(** [Encode] returns exactly on the strings with no unpaired surrogate. *)
Lemma is_ok_Encode (s : jsstring) : is_ok (Encode s) = well_formed_utf16 s.
Proof.
  remember (List.length s) as n eqn:L. revert s L.
  induction n as [n IH] using lt_wf_ind. intros s ->.
  destruct s as [|c rest]; [reflexivity|].
  cbn [Encode well_formed_utf16].
  destruct (uri_unreserved c) eqn:U.
  - apply uri_unreserved_ascii, ascii_not_surrogate in U as [-> ->].
    rewrite <- (IH (List.length rest) ltac:(simpl; lia) rest eq_refl).
    now destruct (Encode rest).
  - destruct (is_low_surrogate c); [reflexivity|].
    destruct (is_high_surrogate c).
    + destruct rest as [|d rest']; [reflexivity|].
      destruct (is_low_surrogate d); [|reflexivity]. simpl.
      rewrite <- (IH (List.length rest') ltac:(simpl; lia) rest' eq_refl).
      now destruct (Encode rest').
    + rewrite <- (IH (List.length rest) ltac:(simpl; lia) rest eq_refl).
      now destruct (Encode rest).
Qed.

Lemma is_ok_encodeURIComponent (v : JsVal) :
  is_ok (encodeURIComponent v) = encodable v.
Proof.
  unfold encodeURIComponent, encodable.
  destruct (ToString v); simpl; [apply is_ok_Encode | reflexivity].
Qed.

Lemma is_ok_method config :
  is_ok (tokens_method config)
  = negb (nullish config)
    && is_string (or_ (prop config "method") (JStr (lit "GET"))).
Proof.
  unfold tokens_method, method_of, field.
  destruct (nullish config); simpl; [reflexivity|].
  now destruct (or_ _ _).
Qed.

Lemma is_ok_headers config :
  is_ok (tokens_headers config)
  = negb (truthy (prop config "headers"))
    || entries_all (fun e => is_string (snd e)) (prop config "headers").
Proof.
  unfold tokens_headers, entries_all.
  destruct (truthy (prop config "headers")); simpl; [|reflexivity].
  destruct (Object_entries _) as [entries|]; simpl; [|reflexivity].
  apply is_ok_mapM. intros [k v]. unfold header_flag. simpl. now destruct v.
Qed.

Lemma is_ok_form config :
  is_ok (tokens_form config)
  = negb (truthy (prop config "form"))
    || entries_all (fun e => encodable (JStr (fst e))
                             && encodable (coalesce (snd e) (JStr [])))
         (prop config "form").
Proof.
  unfold tokens_form, entries_all.
  destruct (truthy (prop config "form")); simpl; [|reflexivity].
  destruct (Object_entries _) as [entries|]; simpl; [|reflexivity].
  rewrite (@is_ok_bind _ _ _ _ true) by reflexivity. rewrite andb_true_r.
  apply is_ok_mapM. intros [k v]. unfold form_pair. cbn [fst snd].
  rewrite <- !is_ok_encodeURIComponent.
  destruct (encodeURIComponent (JStr k)); simpl; [|reflexivity].
  now destruct (encodeURIComponent (coalesce v (JStr []))).
Qed.

Lemma is_ok_timeout config :
  is_ok (tokens_timeout config)
  = negb (truthy (prop config "timeout"))
    || is_ok (ToString (prop config "timeout")).
Proof.
  unfold tokens_timeout.
  destruct (truthy (prop config "timeout")); simpl; [|reflexivity].
  rewrite (@is_ok_bind _ _ _ _ true) by reflexivity. rewrite andb_true_r.
  destruct (prop config "timeout") as [| | | | |elems|props]; try reflexivity;
    unfold ceilSeconds; now destruct (ToString _).
Qed.

Lemma is_ok_url config :
  is_ok (tokens_url config)
  = negb (truthy (or_ (prop config "uri") (prop config "url")))
    || is_ok (ToString (or_ (prop config "uri") (prop config "url"))).
Proof.
  unfold tokens_url. cbv zeta.
  destruct (truthy _); simpl; [|reflexivity].
  now destruct (ToString _).
Qed.

Lemma is_ok_jsonToCurl config : is_ok (jsonToCurl config) = can_return config.
Proof.
  unfold jsonToCurl. rewrite jsonToCurl_parts_assemble.
  rewrite (@is_ok_bind _ _ _ _ true) by reflexivity. rewrite andb_true_r.
  unfold assemble, can_return.
  rewrite <- is_ok_method, <- is_ok_headers, <- is_ok_form, <- is_ok_timeout,
    <- is_ok_url.
  destruct (json_body_total config) as [j Ej].
  destruct (raw_body_total config) as [r Er].
  rewrite Ej, Er.
  destruct (tokens_method config); simpl; [|reflexivity].
  destruct (tokens_headers config); simpl; [|reflexivity].
  destruct (tokens_form config); simpl; [|reflexivity].
  destruct (tokens_timeout config); simpl; [|reflexivity].
  now destruct (tokens_url config).
Qed.

(** X5.  The error taxonomy of the translator.  [jsonToCurl] returns exactly
    when the config is neither [null] nor [undefined], the method is a
    string or falsy, every value of truthy headers is a string, every name
    and value of a truthy form converts to a string with no unpaired
    surrogate, and a truthy timeout and a truthy URL convert to a string;
    in every other case it throws. *)
Theorem jsonToCurl_returns_iff (config : JsVal) :
  ((exists out, jsonToCurl config = Ok out) <-> can_return config = true) /\
  ((exists e, jsonToCurl config = Throw e) <-> can_return config = false).
Proof.
  rewrite <- is_ok_jsonToCurl. split.
  - symmetry. apply is_ok_true.
  - destruct (jsonToCurl config) as [out|e]; simpl; split; eauto; try discriminate.
    now intros [e' H].
Qed.

Lemma mapM_throws {A B} (f : A -> Result B) (l : list A) (x : A) (e : Error) :
  (forall y e', f y = Throw e' -> e' = e) ->
  In x l -> f x = Throw e -> mapM f l = Throw e.
Proof.
  intros U I F. induction l as [|y l IH]; simpl; [easy|].
  destruct (f y) as [b|e'] eqn:E; simpl.
  - destruct I as [->|I]; [congruence|]. now rewrite (IH I).
  - now rewrite (U _ _ E).
Qed.

(** X6.  A header value that is not a string (a number, a boolean, [null], an
    array or an object) makes [jsonToCurl] throw a TypeError, whatever the
    rest of the config holds. *)
Theorem non_string_header_value_throws (config : JsVal)
    (hprops : list (jsstring * JsVal)) (name : jsstring) (value : JsVal) :
  prop config "headers" = JObj hprops ->
  In (name, value) hprops ->
  is_string value = false ->
  jsonToCurl config = Throw TypeError.
Proof.
  intros Eh I S. unfold jsonToCurl. rewrite jsonToCurl_parts_assemble.
  unfold assemble.
  assert (M : tokens_method config = Throw TypeError \/
              exists x, tokens_method config = Ok x).
  { unfold tokens_method, method_of, field. destruct (nullish config); simpl; auto.
    destruct (or_ _ _); simpl; eauto. }
  assert (T : tokens_headers config = Throw TypeError).
  { unfold tokens_headers. rewrite Eh. simpl.
    apply (@mapM_throws _ _ header_flag _ (name, value)).
    - intros [k v] e'. unfold header_flag. simpl.
      destruct v; simpl; congruence.
    - apply (Permutation_in _ (Permutation_sym (Permutation_ownEntries hprops))), I.
    - unfold header_flag. simpl. destruct value; try reflexivity; discriminate. }
  destruct M as [-> | [x ->]]; simpl; [reflexivity|]. now rewrite T.
Qed.

(** ** What the translator looks at *)

(** Two configs that agree on the thirteen fields give the same result. *)
Lemma jsonToCurl_ext (c1 c2 : JsVal) :
  nullish c1 = nullish c2 ->
  (forall n, In n fields_read -> prop c1 n = prop c2 n) ->
  jsonToCurl c1 = jsonToCurl c2.
Proof.
  intros N H. unfold jsonToCurl. rewrite !jsonToCurl_parts_assemble.
  unfold assemble, tokens_method, method_of, field, tokens_headers, tokens_form,
    tokens_json_body, tokens_raw_body, tokens_timeout, tokens_url, block_gzip,
    block_insecure, block_redirects, block_full_response.
  rewrite N.
  rewrite (H "method"), (H "headers"), (H "form"), (H "body"), (H "json"),
    (H "gzip"), (H "rejectUnauthorized"), (H "followRedirect"),
    (H "followAllRedirects"), (H "timeout"), (H "resolveWithFullResponse"),
    (H "uri"), (H "url") by (simpl; tauto).
  reflexivity.
Qed.

Lemma lookup_skip {A} (name k : jsstring) (v : A) (before after : list (jsstring * A)) :
  jsstring_eqb k name = false ->
  lookup name (before ++ (k, v) :: after) = lookup name (before ++ after).
Proof.
  intros E. induction before as [|[k' v'] before IH]; simpl.
  - now rewrite E.
  - now rewrite IH.
Qed.

(** X7.  Fields the translator does not read are ignored: a property under any
    other name, anywhere in the config, changes neither the command nor the
    exception. *)
Theorem unread_fields_are_ignored (before after : list (jsstring * JsVal))
    (name : jsstring) (value : JsVal) :
  forallb (fun n => negb (jsstring_eqb name (lit n))) fields_read = true ->
  jsonToCurl (JObj (before ++ (name, value) :: after))
  = jsonToCurl (JObj (before ++ after)).
Proof.
  intros H. apply jsonToCurl_ext; [reflexivity|].
  intros n I. unfold prop. rewrite lookup_skip; [reflexivity|].
  apply (proj1 (forallb_forall _ _) H) in I. now apply negb_true_iff in I.
Qed.

(** ** Escaping *)

(** X8.  The escaping of quotes loses nothing: two texts with the same escaped
    form are the same text, so a [-H] flag determines the value of its
    header and a body flag the text of its body. *)
Theorem replace_quotes_injective (a b : jsstring) :
  replace_quotes a = replace_quotes b -> a = b.
Proof.
  revert b. induction a as [|c a IH]; intros [|d b]; simpl.
  - reflexivity.
  - destruct (N.eqb d apostrophe); discriminate.
  - destruct (N.eqb c apostrophe); discriminate.
  - destruct (N.eqb_spec c apostrophe) as [-> | Nc],
      (N.eqb_spec d apostrophe) as [-> | Nd]; simpl.
    + intros [= E]. f_equal. now apply IH.
    + intros [= E _]. now elim Nd.
    + intros [= E _]. now elim Nc.
    + intros [= -> E]. f_equal. now apply IH.
Qed.

(** ** The payload of the form *)

Lemma hex_digit_not_separator (upper : bool) (n : N) :
  hex_digit upper n <> 38%N /\ hex_digit upper n <> 61%N.
Proof.
  unfold hex_digit. destruct (N.ltb_spec n 10); [|destruct upper]; lia.
Qed.

Lemma percent_encode_no_separator (cp : N) :
  Forall (fun c => c <> 38%N /\ c <> 61%N) (percent_encode cp).
Proof.
  unfold percent_encode. apply Forall_forall. intros c I.
  apply in_flat_map in I as [b [_ I]]. unfold percent_byte in I. simpl in I.
  destruct I as [<-|[<-|[<-|[]]]]; try apply hex_digit_not_separator.
  split; discriminate.
Qed.

(** The encoded text holds neither [&] nor [=]. *)
Lemma Encode_no_separator (s r : jsstring) :
  Encode s = Ok r -> Forall (fun c => c <> 38%N /\ c <> 61%N) r.
Proof.
  remember (List.length s) as n eqn:L. revert s r L.
  induction n as [n IH] using lt_wf_ind. intros s r ->.
  destruct s as [|c rest]; [intros [= <-]; constructor|].
  cbn [Encode].
  destruct (uri_unreserved c) eqn:U.
  - intros H. apply bind_Ok in H as [r' [E [= <-]]]. constructor.
    + split; intros ->; discriminate U.
    + exact (IH (List.length rest) ltac:(simpl; lia) rest r' eq_refl E).
  - destruct (is_low_surrogate c); [discriminate|].
    destruct (is_high_surrogate c).
    + destruct rest as [|d rest']; [discriminate|].
      destruct (is_low_surrogate d); [|discriminate].
      intros H. apply bind_Ok in H as [r' [E [= <-]]].
      apply Forall_app. split; [apply percent_encode_no_separator|].
      exact (IH (List.length rest') ltac:(simpl; lia) rest' r' eq_refl E).
    + intros H. apply bind_Ok in H as [r' [E [= <-]]].
      apply Forall_app. split; [apply percent_encode_no_separator|].
      exact (IH (List.length rest) ltac:(simpl; lia) rest r' eq_refl E).
Qed.

Lemma count_none (x : N) (l : jsstring) :
  Forall (fun c => c <> x) l -> count_occ N.eq_dec l x = 0.
Proof.
  intros H. apply count_occ_not_In. intros I.
  now apply (proj1 (Forall_forall _ _) H) in I.
Qed.

Lemma form_pair_separators (e : jsstring * JsVal) (pair : jsstring) :
  form_pair e = Ok pair ->
  count_occ N.eq_dec pair 38%N = 0 /\ count_occ N.eq_dec pair 61%N = 1.
Proof.
  unfold form_pair, encodeURIComponent. intros H.
  apply bind_Ok in H as [k [Hk H]]. apply bind_Ok in H as [v [Hv [= <-]]].
  apply bind_Ok in Hk as [sk [_ Hk]]. apply bind_Ok in Hv as [sv [_ Hv]].
  apply Encode_no_separator in Hk, Hv.
  assert (K38 : count_occ N.eq_dec k 38%N = 0).
  { apply count_none. eapply Forall_impl; [|exact Hk]. simpl. tauto. }
  assert (K61 : count_occ N.eq_dec k 61%N = 0).
  { apply count_none. eapply Forall_impl; [|exact Hk]. simpl. tauto. }
  assert (V38 : count_occ N.eq_dec v 38%N = 0).
  { apply count_none. eapply Forall_impl; [|exact Hv]. simpl. tauto. }
  assert (V61 : count_occ N.eq_dec v 61%N = 0).
  { apply count_none. eapply Forall_impl; [|exact Hv]. simpl. tauto. }
  rewrite !count_occ_app. unfold codeunit in *. rewrite K38, K61.
  change (lit "=" ++ v) with (61%N :: v).
  rewrite count_occ_cons_neq by discriminate.
  rewrite count_occ_cons_eq by reflexivity.
  rewrite V38, V61. split; reflexivity.
Qed.

Lemma join_separators (pairs : list jsstring) :
  Forall (fun pair => count_occ N.eq_dec pair 38%N = 0 /\
                      count_occ N.eq_dec pair 61%N = 1) pairs ->
  pairs <> [] ->
  S (count_occ N.eq_dec (join (lit "&") pairs) 38%N) = List.length pairs /\
  count_occ N.eq_dec (join (lit "&") pairs) 61%N = List.length pairs.
Proof.
  induction 1 as [|pair pairs [A E] _ IH]; [easy|]. intros _.
  destruct pairs as [|pair' pairs].
  - simpl. rewrite A, E. split; reflexivity.
  - destruct (IH ltac:(discriminate)) as [IA IE].
    change (join (lit "&") (pair :: pair' :: pairs))
      with (pair ++ lit "&" ++ join (lit "&") (pair' :: pairs)).
    rewrite !count_occ_app. unfold codeunit in *. rewrite A, E.
    change (count_occ N.eq_dec (lit "&") 38%N) with 1.
    change (count_occ N.eq_dec (lit "&") 61%N) with 0.
    simpl List.length in *. lia.
Qed.

(** X9.  The payload of a form can always be split back into its fields: with a
    non-empty [form] mapping, the payload of the form flag holds exactly
    one [=] per field and one [&] between two fields, whatever characters
    the names and the values hold. *)
Theorem form_payload_separators (config : JsVal) (parts : list jsstring)
    (fprops : list (jsstring * JsVal)) :
  prop config "form" = JObj fprops -> fprops <> [] ->
  jsonToCurl_parts config = Ok parts ->
  exists payload rest,
    flags "-d " parts = (lit "-d '" ++ payload ++ lit "'") :: rest /\
    count_occ N.eq_dec payload 61%N = List.length fprops /\
    S (count_occ N.eq_dec payload 38%N) = List.length fprops.
Proof.
  intros Ef Hne H. apply anatomy in H
    as (x & h & f & j & r & t & u & _ & _ & Hf & _ & _ & _ & _ & _ & _ & _ & FD & _).
  rewrite FD. clear FD parts.
  unfold tokens_form in Hf. rewrite Ef in Hf. simpl in Hf.
  apply bind_Ok in Hf as [formParts [Hm [= <-]]].
  pose proof (mapM_length _ _ Hm) as L.
  rewrite (Permutation_length (Permutation_ownEntries fprops)) in L.
  assert (P : Forall (fun pair => count_occ N.eq_dec pair 38%N = 0 /\
                                  count_occ N.eq_dec pair 61%N = 1) formParts).
  { apply mapM_Forall2 in Hm. clear L. induction Hm; constructor; auto.
    eapply form_pair_separators; eassumption. }
  assert (Q : formParts <> []).
  { intros ->. destruct fprops; [contradiction | discriminate]. }
  destruct (join_separators P Q) as [A E].
  exists (join (lit "&") formParts), (j ++ r).
  destruct formParts as [|a l]; [contradiction|].
  split; [reflexivity|]. rewrite <- L. split; [exact E | exact A].
Qed.

(** ** The method in ASCII *)

Lemma toUpperCase_ascii (m : jsstring) :
  forallb (fun c => (c <? 128)%N) m = true -> toUpperCase m = map ascii_upper m.
Proof.
  induction m as [|c m IH]; simpl; [reflexivity|].
  intros H. apply andb_true_iff in H as [Hc H].
  pose proof (proj1 (N.ltb_lt _ _) Hc) as Lc.
  destruct (ascii_not_surrogate Lc) as [_ ->].
  unfold upper_code_point. rewrite Hc. simpl. now rewrite IH.
Qed.

(** X10.  For a method written in ASCII the Unicode tables play no part: the
    flag is [-X] followed by the method with its letters a-z in upper case,
    and there is no flag when that is GET, so [get] in any case of its
    letters gives no [-X] flag. *)
Theorem ascii_method_flag (config : JsVal) (parts : list jsstring) (m : jsstring) :
  prop config "method" = JStr m ->
  truthy (JStr m) = true ->
  forallb (fun c => (c <? 128)%N) m = true ->
  jsonToCurl_parts config = Ok parts ->
  flags "-X " parts
  = if jsstring_eqb (map ascii_upper m) (lit "GET") then []
    else [lit "-X " ++ map ascii_upper m].
Proof.
  intros Em T A H. apply anatomy in H
    as (x & h & f & j & r & t & u & Hx & _ & _ & _ & _ & _ & _ & _ & FX & _).
  rewrite FX. clear FX parts.
  unfold tokens_method, method_of, field in Hx.
  destruct (nullish config); [discriminate|]. simpl in Hx.
  rewrite Em in Hx. unfold or_ in Hx. rewrite T in Hx. simpl in Hx.
  injection Hx as <-. rewrite (toUpperCase_ascii _ A).
  now destruct (jsstring_eqb _ _).
Qed.

(** ** The command line *)

Lemma startsWith_app (p r : jsstring) : startsWith p (p ++ r) = true.
Proof. induction p as [|c p IH]; simpl; [reflexivity|]. now rewrite N.eqb_refl. Qed.

(** A command that is returned starts with [curl]. *)
Lemma jsonToCurl_starts_with_curl (config : JsVal) (curlCommand : jsstring) :
  jsonToCurl config = Ok curlCommand -> startsWith (lit "curl") curlCommand = true.
Proof.
  intros H. apply jsonToCurl_join in H as [parts [H ->]].
  apply token_groups in H as (x & h & f & j & r & t & u & -> & _).
  destruct (x ++ h ++ f ++ j ++ r ++ block_gzip config [] ++ block_insecure config []
              ++ block_redirects config [] ++ t ++ block_full_response config [] ++ u)
    as [|tok rest].
  - reflexivity.
  - change (join separator ([lit "curl"] ++ tok :: rest))
      with (lit "curl" ++ separator ++ join separator (tok :: rest)).
    apply startsWith_app.
Qed.

(** X11.  How a run of the command line can end.  With exit code 0, after the
    help or the version and nothing else.  With exit code 1, after a first
    line on the error output and with no command on the standard output.
    Normally, after exactly one line on the standard output: the command of
    a config that was parsed, which starts with [curl].  Or with an
    exception of [jsonToCurl] that nothing catches, and then nothing was
    written. *)
Theorem main_outcomes (w : World) (args : list jsstring) :
  match main w args with
  | (out, Exit code) =>
      (code = 0%Z /\ (out = showHelp \/ out = showVersion w)) \/
      (code = 1%Z /\
       (exists message rest, out = LogError message :: rest) /\
       Forall (fun o => forall text, o <> Log text) out)
  | (out, Return) =>
      exists text jsonData curlCommand,
        JSON_parse w text = inl jsonData /\
        jsonToCurl jsonData = Ok curlCommand /\
        out = [Log curlCommand] /\
        startsWith (lit "curl") curlCommand = true
  | (out, Uncaught e) =>
      out = [] /\
      exists text jsonData,
        JSON_parse w text = inl jsonData /\ jsonToCurl jsonData = Throw e
  end.
Proof.
  assert (P : forall text jsonData, JSON_parse w text = inl jsonData ->
            match print_command jsonData with
            | (out, Exit code) => False
            | (out, Return) =>
                exists text jsonData curlCommand,
                  JSON_parse w text = inl jsonData /\
                  jsonToCurl jsonData = Ok curlCommand /\
                  out = [Log curlCommand] /\
                  startsWith (lit "curl") curlCommand = true
            | (out, Uncaught e) =>
                out = [] /\
                exists text jsonData,
                  JSON_parse w text = inl jsonData /\ jsonToCurl jsonData = Throw e
            end).
  { intros text jsonData E. unfold print_command.
    destruct (jsonToCurl jsonData) as [curlCommand|e] eqn:J.
    - exists text, jsonData, curlCommand.
      repeat split; auto. now apply jsonToCurl_starts_with_curl in J.
    - split; [reflexivity|]. now exists text, jsonData. }
  assert (Q : forall text jsonData, JSON_parse w text = inl jsonData ->
            match print_command jsonData with
            | (out, Exit code) =>
                (code = 0%Z /\ (out = showHelp \/ out = showVersion w)) \/
                (code = 1%Z /\
                 (exists message rest, out = LogError message :: rest) /\
                 Forall (fun o => forall text, o <> Log text) out)
            | (out, Return) =>
                exists text jsonData curlCommand,
                  JSON_parse w text = inl jsonData /\
                  jsonToCurl jsonData = Ok curlCommand /\
                  out = [Log curlCommand] /\
                  startsWith (lit "curl") curlCommand = true
            | (out, Uncaught e) =>
                out = [] /\
                exists text jsonData,
                  JSON_parse w text = inl jsonData /\ jsonToCurl jsonData = Throw e
            end).
  { intros text jsonData E. specialize (P text jsonData E).
    destruct (print_command jsonData) as [out [code| |e]]; [contradiction | exact P | exact P]. }
  assert (F : forall out : list Output,
            Forall (fun o => forall text, o <> Log text) out ->
            (exists message rest, out = LogError message :: rest) ->
            (1%Z = 0%Z /\ (out = showHelp \/ out = showVersion w)) \/
            (1%Z = 1%Z /\
             (exists message rest, out = LogError message :: rest) /\
             Forall (fun o => forall text, o <> Log text) out)).
  { intros out A B. right. auto. }
  unfold main. destruct args as [|firstArg rest].
  - apply F; [repeat constructor; discriminate | eauto].
  - destruct (_ || _); [left; auto|].
    destruct (_ || _); [left; auto|].
    unfold convert. destruct firstArg as [|c input].
    + apply F; [repeat constructor; discriminate | eauto].
    + destruct (existsSync w (c :: input)).
      * destruct (readFileSync w (c :: input)) as [fileContent|message].
        -- destruct (JSON_parse w fileContent) as [jsonData|message] eqn:E.
           ++ exact (Q _ _ E).
           ++ apply F; [repeat constructor; discriminate | eauto].
        -- apply F; [repeat constructor; discriminate | eauto].
      * destruct (JSON_parse w (c :: input)) as [jsonData|message] eqn:E.
        -- exact (Q _ _ E).
        -- apply F; [repeat constructor; discriminate | eauto].
Qed.

(** X12.  A file takes precedence: when the argument names a file that exists,
    the run is decided by the file alone, and what the argument would give
    as a JSON text plays no part. *)
Theorem convert_file_takes_precedence (w w' : World) (input : jsstring) :
  existsSync w input = true ->
  existsSync w' input = true ->
  readFileSync w input = readFileSync w' input ->
  (forall fileContent, readFileSync w input = inl fileContent ->
     JSON_parse w fileContent = JSON_parse w' fileContent) ->
  convert w input = convert w' input.
Proof.
  intros E E' R P. unfold convert. destruct input as [|c input]; [reflexivity|].
  rewrite E, E', <- R.
  destruct (readFileSync w (c :: input)) as [fileContent|message] eqn:F;
    [|reflexivity].
  now rewrite <- (P fileContent eq_refl).
Qed.

End Curlify.

(** ** Closed instances *)

(** C1: a form, the body [it's] and [json] give the two flags. *)
Lemma form_and_json_body_both_emit_witness :
  List.length
    (flags "-d " [lit "curl"; lit "-d 'a=1'"; lit "-d 'it'\''s'"]) = 2%nat.
Proof.
  destruct (@form_and_json_body_both_emit asciiOnlyUpper notANumber
              config_form_and_json
              [lit "curl"; lit "-d 'a=1'"; lit "-d 'it'\''s'"]
              [(lit "a", str "1")])
    as (formParts & bodyStr & _ & _ & F).
  - reflexivity.
  - discriminate.
  - reflexivity.
  - reflexivity.
  - vm_compute. reflexivity.
  - rewrite F. reflexivity.
Defined.

(** C1 as stated fails on a body that is present and empty: the form, the
    body and [json] are all there, and the array holds one [-d] flag. *)
Lemma present_empty_body_one_d_flag :
  prop config_form_and_empty_body "form" = JObj [(lit "a", str "1")] /\
  prop config_form_and_empty_body "body" = JStr [] /\
  truthy (prop config_form_and_empty_body "json") = true /\
  (forall up cs,
     jsonToCurl_parts up cs config_form_and_empty_body
     = Ok [lit "curl"; lit "-d 'a=1'"]) /\
  List.length (flags "-d " [lit "curl"; lit "-d 'a=1'"]) = 1%nat.
Proof. repeat split. Qed.

(** C2: a raw body with a quote. *)
Lemma raw_body_flag_witness :
  exists bodyStr,
    (prop config_raw_body "body" = JStr bodyStr \/
     is_string (prop config_raw_body "body") = false /\
     JSON_stringify (prop config_raw_body "body") = Some bodyStr) /\
    flags "-d " [lit "curl"; lit "-d 'it'\''s raw'"; lit "'https://api.example.com'"]
    = [lit "-d '"
         ++ flat_map (fun c => if N.eqb c apostrophe then lit "'\''" else [c]) bodyStr
         ++ lit "'"].
Proof.
  apply (@raw_body_flag asciiOnlyUpper notANumber config_raw_body);
    vm_compute; reflexivity.
Defined.

(** C2 as stated fails on an empty [form] mapping: the body is present,
    [json] is absent, and the array holds no [-d] flag. *)
Lemma empty_form_suppresses_raw_body :
  prop config_empty_form_and_body "form" = JObj [] /\
  prop config_empty_form_and_body "body" = str "x" /\
  prop config_empty_form_and_body "json" = JUndefined /\
  (forall up cs,
     jsonToCurl_parts up cs config_empty_form_and_body = Ok [lit "curl"]) /\
  flags "-d " [lit "curl"] = [].
Proof. repeat split. Qed.

(** C3: two headers, one with a quote in its value. *)
Lemma header_flags_in_own_order_witness :
  Forall2 (fun e tok => exists value,
             snd e = JStr value /\
             tok = lit "-H '" ++ fst e ++ lit ": "
                     ++ flat_map (fun c => if N.eqb c apostrophe
                                           then lit "'\''" else [c]) value
                     ++ lit "'")
          [(lit "Accept", str "*/*"); (lit "X-Note", str "it's")]
          [lit "-H 'Accept: */*'"; lit "-H 'X-Note: it'\''s'"].
Proof.
  exact (proj1 (@header_flags_in_own_order asciiOnlyUpper notANumber
                  config_headers
                  [lit "curl"; lit "-H 'Accept: */*'"; lit "-H 'X-Note: it'\''s'"]
                  [(lit "Accept", str "*/*"); (lit "X-Note", str "it's")]
                  eq_refl eq_refl)).
Defined.

(** C3 as stated fails on a header whose name is an array index: [b] was
    inserted before [1], and the flag of [1] comes first. *)
Lemma numeric_header_name_comes_first :
  prop config_numeric_header "headers"
  = JObj [(lit "b", str "x"); (lit "1", str "y")] /\
  (forall up cs,
     jsonToCurl_parts up cs config_numeric_header
     = Ok [lit "curl"; lit "-H '1: y'"; lit "-H 'b: x'"]) /\
  flags "-H " [lit "curl"; lit "-H '1: y'"; lit "-H 'b: x'"]
  <> [lit "-H 'b: x'"; lit "-H '1: y'"].
Proof. repeat split. discriminate. Qed.

(** C4: the form of the specification, with a null value added. *)
Lemma form_flag_percent_encoded_witness :
  exists formParts,
    List.length formParts = 3%nat /\
    lit "-d 'a=1&b=two%20words&c='"
    = lit "-d '" ++ join (lit "&") formParts ++ lit "'".
Proof.
  destruct (@form_flag_percent_encoded asciiOnlyUpper notANumber
              config_form [lit "curl"; lit "-d 'a=1&b=two%20words&c='"]
              [(lit "a", str "1"); (lit "b", str "two words"); (lit "c", JNull)])
    as [(formParts & rest & F & E & _) _].
  - reflexivity.
  - discriminate.
  - reflexivity.
  - exists formParts. split.
    + symmetry. exact (Forall2_length F).
    + exact (f_equal (hd []) E).
Defined.

(** C4 as stated fails on a form field whose name is an array index: [b]
    was inserted before [1], and the pair of [1] comes first. *)
Lemma numeric_form_name_comes_first :
  prop config_numeric_form "form"
  = JObj [(lit "b", str "x"); (lit "1", str "y")] /\
  (forall up cs,
     jsonToCurl_parts up cs config_numeric_form
     = Ok [lit "curl"; lit "-d '1=y&b=x'"]) /\
  lit "-d '1=y&b=x'" <> lit "-d 'b=x&1=y'".
Proof. repeat split. discriminate. Qed.

(** C5: the scenario of the specification. *)
Lemma url_token_from_truthy_uri_witness :
  url_tokens [lit "curl"; lit "'https://x.test'"] = [lit "'https://x.test'"].
Proof.
  exact (proj1 (proj2 (@url_token_from_truthy_uri asciiOnlyUpper notANumber
                         config_uri_and_url [lit "curl"; lit "'https://x.test'"]
                         eq_refl eq_refl))
           (lit "https://x.test") eq_refl).
Defined.

(** C5 as stated fails on a [uri] that is present and empty: both fields
    are there, and the URL token is the one of [url]. *)
Lemma present_empty_uri_gives_way :
  prop config_empty_uri "uri" = JStr [] /\
  prop config_empty_uri "url" = str "https://y.test" /\
  (forall up cs,
     jsonToCurl_parts up cs config_empty_uri
     = Ok [lit "curl"; lit "'https://y.test'"]) /\
  url_tokens [lit "curl"; lit "'https://y.test'"] = [lit "'https://y.test'"].
Proof. repeat split. Qed.

(** C6: [pOsT] gives [-X POST]. *)
Lemma method_flag_iff_not_GET_witness :
  flags "-X " [lit "curl"; lit "-X POST"; lit "'https://api.example.com'"]
  = [lit "-X POST"].
Proof.
  destruct (@method_flag_iff_not_GET asciiOnlyUpper notANumber config_post
              [lit "curl"; lit "-X POST"; lit "'https://api.example.com'"] eq_refl)
    as (s & _ & _ & _ & _ & P).
  exact (P (lit "pOsT") eq_refl eq_refl).
Defined.


(** C8: [rejectUnauthorized: false] gives [-k]. *)
Lemma insecure_flag_iff_exactly_false_witness :
  In (lit "-k") [lit "curl"; lit "-k"; lit "'https://api.example.com'"]
  <-> prop config_insecure "rejectUnauthorized" = JBool false.
Proof.
  exact (proj1 (@insecure_flag_iff_exactly_false asciiOnlyUpper notANumber
                  config_insecure
                  [lit "curl"; lit "-k"; lit "'https://api.example.com'"] eq_refl)).
Defined.

(** C9: the round trip of the specification returns. *)
Lemma jsonToCurl_total_when_form_encodes_witness :
  exists out, jsonToCurl asciiOnlyUpper notANumber config_round_trip = Ok out.
Proof.
  exact (proj1 (@jsonToCurl_total_when_form_encodes asciiOnlyUpper notANumber
                  config_round_trip eq_refl eq_refl)).
Defined.

(** C9 as stated fails on a form value with an unpaired surrogate: the
    config is one of the data model, and [jsonToCurl] throws a URIError. *)
Lemma lone_surrogate_in_form_throws :
  well_formed config_lone_surrogate = true /\
  (forall up cs, jsonToCurl up cs config_lone_surrogate = Throw URIError).
Proof. repeat split. Qed.

(** C10: an empty [uri] and the URL token of [url]. *)
Lemma url_token_iff_truthy_witness :
  url_tokens [lit "curl"; lit "'https://y.test'"] <> [] <->
  truthy (or_ (prop config_empty_uri "uri") (prop config_empty_uri "url")) = true.
Proof.
  exact (proj1 (@url_token_iff_truthy asciiOnlyUpper notANumber config_empty_uri
                  [lit "curl"; lit "'https://y.test'"] eq_refl)).
Defined.

(** ** Closed instances of the further properties *)

(** The three switches together. *)
Lemma switch_flags_iff_truthy_witness :
  In (lit "--compressed")
     [lit "curl"; lit "--compressed"; lit "-L"; lit "-i";
      lit "'https://api.example.com'"]
  <-> truthy (prop config_switches "gzip") = true.
Proof.
  exact (proj1 (@switch_flags_iff_truthy asciiOnlyUpper notANumber config_switches
                  [lit "curl"; lit "--compressed"; lit "-L"; lit "-i";
                   lit "'https://api.example.com'"] eq_refl)).
Defined.

(** A config with its fields in the reverse order of the blocks. *)
Lemma tokens_in_fixed_order_witness :
  exists rest,
    [lit "curl"; lit "-X PUT"; lit "-H 'Accept: */*'"; lit "-d 'a=1'"; lit "-d 'x'";
     lit "--compressed"; lit "-k"; lit "-L"; lit "--max-time 3"; lit "-i";
     lit "'https://api.example.com'"] = lit "curl" :: rest /\
    StronglySorted (fun a b => rank a <= rank b) rest /\
    Forall (fun t => 1 <= rank t <= 9) rest.
Proof.
  apply (@tokens_in_fixed_order asciiOnlyUpper notANumber config_everything).
  vm_compute. reflexivity.
Defined.

(** A form and a body without [json]: the body is left out. *)
Lemma d_flags_of_form_and_body_witness :
  flags "-d " [lit "curl"; lit "-d 'a=1'"] = [lit "-d 'a=1'"] /\
  List.length (flags "-d " [lit "curl"; lit "-d 'a=1'"]) <= 2.
Proof.
  destruct (@d_flags_of_form_and_body asciiOnlyUpper notANumber
              config_form_and_raw_body [lit "curl"; lit "-d 'a=1'"] eq_refl)
    as (formFlags & F & _ & _ & D & _ & L).
  split; [reflexivity | exact L].
Defined.

(** The number 5 as a config. *)
Lemma jsonToCurl_of_non_object_witness :
  jsonToCurl asciiOnlyUpper notANumber (JNum 5) = Ok (lit "curl").
Proof.
  apply (@jsonToCurl_of_non_object asciiOnlyUpper notANumber (JNum 5)).
  intros props. discriminate.
Defined.

(** A numeric content-length. *)
Lemma non_string_header_value_throws_witness :
  jsonToCurl asciiOnlyUpper notANumber config_numeric_header_value = Throw TypeError.
Proof.
  apply (@non_string_header_value_throws asciiOnlyUpper notANumber
           config_numeric_header_value [(lit "content-length", JNum 42)]
           (lit "content-length") (JNum 42)).
  - reflexivity.
  - left. reflexivity.
  - reflexivity.
Defined.

(** A comment in the middle of a config. *)
Lemma unread_fields_are_ignored_witness :
  jsonToCurl asciiOnlyUpper notANumber
    (JObj ([(lit "method", str "post")]
           ++ (lit "comment", JArr [JNull]) :: [(lit "url", str "https://x.test")]))
  = jsonToCurl asciiOnlyUpper notANumber
      (JObj ([(lit "method", str "post")] ++ [(lit "url", str "https://x.test")])).
Proof.
  apply unread_fields_are_ignored. reflexivity.
Defined.

(** One text, escaped twice. *)
Lemma replace_quotes_injective_witness : lit "it's" = lit "it's".
Proof. apply replace_quotes_injective. reflexivity. Defined.

(** Names and values that hold the separators themselves. *)
Lemma form_payload_separators_witness :
  exists payload rest,
    flags "-d " [lit "curl"; lit "-d 'a%26b=c%3Dd&e=f%26g'"]
    = (lit "-d '" ++ payload ++ lit "'") :: rest /\
    count_occ N.eq_dec payload 61%N = 2 /\
    S (count_occ N.eq_dec payload 38%N) = 2.
Proof.
  apply (@form_payload_separators asciiOnlyUpper notANumber
           config_form_with_separators
           [lit "curl"; lit "-d 'a%26b=c%3Dd&e=f%26g'"]
           [(lit "a&b", str "c=d"); (lit "e", str "f&g")]).
  - reflexivity.
  - discriminate.
  - vm_compute. reflexivity.
Defined.

(** [gEt] gives no [-X] flag. *)
Lemma ascii_method_flag_witness :
  flags "-X " [lit "curl"; lit "'https://api.example.com'"] = [].
Proof.
  exact (@ascii_method_flag asciiOnlyUpper notANumber config_get
           [lit "curl"; lit "'https://api.example.com'"] (lit "gEt")
           eq_refl eq_refl eq_refl eq_refl).
Defined.

(** The file [request.json] in two worlds that parse its name differently. *)
Lemma convert_file_takes_precedence_witness :
  convert asciiOnlyUpper notANumber sampleWorld (lit "request.json")
  = convert asciiOnlyUpper notANumber otherWorld (lit "request.json").
Proof.
  apply convert_file_takes_precedence; try reflexivity.
  intros fileContent [= <-]. reflexivity.
Defined.
